(** * MDBEM: Multi-Directional Boundary Enhancement Module

    A shallow embedding of [MLS-YOLO/MDBEM.py] and the properties its
    specification states about it.

    The module owns three bias-free convolutions (a 1x1 channel mix, a
    depthwise 3x3 with padding 1, a 1x1 pointwise merge).  [forward] projects
    the input, subtracts from the projection each of its eight one-cell
    shifts, sums the eight differences, refines the sum with the depthwise
    and pointwise convolutions and adds the result to the input.

    Tensor elements are taken from an arbitrary type with [0], [+], [-] and
    [*] (class [Scalar]); the theorems that need arithmetic laws assume a
    commutative ring (class [ScalarRing]), which is the "array of real
    numbers" of the data model: they are statements about exact arithmetic.
    Everything is executable at the instance [Z]; the instance [float]
    (IEEE binary64, with the special values of the float32 the library
    defaults to) shows where exact arithmetic and the machine's part ways. *)

From Stdlib Require Import String.
From Stdlib Require Import List ZArith Lia Bool Arith Ring Ring_theory ZArithRing.
From Stdlib Require PrimFloat.
Import ListNotations.

(** ** Scalars *)

Class Scalar (R : Type) : Type := {
  rO : R;
  rI : R;
  radd : R -> R -> R;
  rmul : R -> R -> R;
  rsub : R -> R -> R;
  ropp : R -> R
}.

Class ScalarRing (R : Type) `{Scalar R} : Prop :=
  scalar_ring : ring_theory rO rI radd rmul rsub ropp (@eq R).

#[export] Instance Z_Scalar : Scalar Z := {|
  rO := 0%Z; rI := 1%Z; radd := Z.add; rmul := Z.mul; rsub := Z.sub; ropp := Z.opp
|}.

#[export] Instance Z_ScalarRing : ScalarRing Z := Zth.

(** IEEE binary64.  It is no ring: [0 * infinity] is [nan]. *)
#[export] Instance float_Scalar : Scalar PrimFloat.float := {|
  rO := PrimFloat.zero; rI := PrimFloat.one;
  radd := PrimFloat.add; rmul := PrimFloat.mul; rsub := PrimFloat.sub;
  ropp := PrimFloat.opp
|}.

(** ** Exceptions

    The source raises nothing itself; every exception comes from the tensor
    library or from Python.  [result] is the error monad of a call. *)

Inductive exn : Type :=
| ValueError    (* nn.Conv2d: groups / divisibility checks of the constructor *)
| RuntimeError  (* torch: negative dimension, channel or kernel-size mismatch, broadcasting *)
| TypeError.    (* Python: arithmetic on None or on an int where a tensor is needed *)

Inductive result (A : Type) : Type :=
| Ok (a : A)
| Raise (e : exn).

Arguments Ok {A} a.
Arguments Raise {A} e.

Definition bind {A B : Type} (m : result A) (k : A -> result B) : result B :=
  match m with
  | Ok a => k a
  | Raise e => Raise e
  end.

Notation "x <- m ;; k" := (bind m (fun x => k))
  (at level 61, m at next level, right associativity).

(** ** Tensors *)

Section Model.

Context {R : Type} {SR : Scalar R}.

(** A 4-D tensor: its shape (batch, channels, height, width) and its
    elements as nested lists, outermost axis first.  The shape is kept
    beside the data because a tensor with a zero-size axis still has the
    sizes of its inner axes. *)
Record Tensor : Type := mkTensor {
  tN : nat;
  tC : nat;
  tH : nat;
  tW : nat;
  tdata : list (list (list (list R)))
}.

Definition shape (t : Tensor) : nat * nat * nat * nat := (tN t, tC t, tH t, tW t).

(** The data agrees with the shape. *)
Definition wf (t : Tensor) : Prop :=
  length (tdata t) = tN t /\
  Forall (fun b => length b = tC t /\
    Forall (fun p => length p = tH t /\
      Forall (fun r => length r = tW t) p) b) (tdata t).

(** [t[n, c, h, w]]; an index outside the tensor reads [0] in the model. *)
Definition get (t : Tensor) (n c h w : nat) : R :=
  nth w (nth h (nth c (nth n (tdata t) []) []) []) rO.

Definition tab {A : Type} (n : nat) (f : nat -> A) : list A := map f (seq 0 n).

(** The tensor of a given shape whose element at [(n, c, h, w)] is [f n c h w]. *)
Definition tabulate (N C H W : nat) (f : nat -> nat -> nat -> nat -> R) : Tensor :=
  mkTensor N C H W
    (tab N (fun n => tab C (fun c => tab H (fun h => tab W (fun w => f n c h w))))).

Definition all_zero (t : Tensor) : Prop :=
  forall n c h w, n < tN t -> c < tC t -> h < tH t -> w < tW t -> get t n c h w = rO.

(** *** Slicing of the two spatial axes: [x[:, :, sh, sw]] *)

Inductive pyslice : Type :=
| SliceAll      (* [:]   *)
| SliceFrom1    (* [1:]  *)
| SliceToLast.  (* [:-1] *)

Definition apply_slice {A : Type} (s : pyslice) (l : list A) : list A :=
  match s with
  | SliceAll => l
  | SliceFrom1 => tl l
  | SliceToLast => removelast l
  end.

Definition slice_len (s : pyslice) (n : nat) : nat :=
  match s with
  | SliceAll => n
  | SliceFrom1 => pred n
  | SliceToLast => pred n
  end.

(** The first index a slice keeps. *)
Definition slice_start (s : pyslice) : nat :=
  match s with SliceFrom1 => 1 | _ => 0 end.

Definition index (x : Tensor) (sh sw : pyslice) : Tensor :=
  {| tN := tN x; tC := tC x;
     tH := slice_len sh (tH x); tW := slice_len sw (tW x);
     tdata := map (map (fun p => map (apply_slice sw) (apply_slice sh p))) (tdata x) |}.

(** *** [F.pad(x, (left, right, top, bottom), value=value)], constant mode,
    on the last two axes. *)

Definition pad_row (left right : nat) (value : R) (row : list R) : list R :=
  repeat value left ++ row ++ repeat value right.

Definition pad_plane (left right top bottom : nat) (value : R) (W : nat)
    (p : list (list R)) : list (list R) :=
  repeat (repeat value (left + W + right)) top
    ++ map (pad_row left right value) p
    ++ repeat (repeat value (left + W + right)) bottom.

Definition pad (x : Tensor) (left right top bottom : nat) (value : R) : Tensor :=
  {| tN := tN x; tC := tC x;
     tH := top + tH x + bottom; tW := left + tW x + right;
     tdata := map (map (pad_plane left right top bottom value (tW x))) (tdata x) |}.

(** *** Elementwise arithmetic with broadcasting *)

Definition broadcast_dim (a b : nat) : option nat :=
  if a =? b then Some a
  else if a =? 1 then Some b
  else if b =? 1 then Some a
  else None.

Definition bidx (dim i : nat) : nat := if dim =? 1 then 0 else i.

Definition binop (f : R -> R -> R) (a b : Tensor) : result Tensor :=
  match broadcast_dim (tN a) (tN b), broadcast_dim (tC a) (tC b),
        broadcast_dim (tH a) (tH b), broadcast_dim (tW a) (tW b) with
  | Some N, Some C, Some H, Some W =>
      Ok (tabulate N C H W (fun n c h w =>
            f (get a (bidx (tN a) n) (bidx (tC a) c) (bidx (tH a) h) (bidx (tW a) w))
              (get b (bidx (tN b) n) (bidx (tC b) c) (bidx (tH b) h) (bidx (tW b) w))))
  | _, _, _, _ => Raise RuntimeError
  end.

Definition tadd : Tensor -> Tensor -> result Tensor := binop radd.
Definition tsub : Tensor -> Tensor -> result Tensor := binop rsub.

(** [s + t] for a Python number [s]: [Tensor.__radd__] adds [s] to every element. *)
Definition scalar_radd (s : R) (t : Tensor) : Tensor :=
  tabulate (tN t) (tC t) (tH t) (tW t) (fun n c h w => radd (get t n c h w) s).

(** The builtin [sum] over a list of tensors: the accumulator starts at the
    int [0] and takes one [+] per item.  Of an empty list the sum is the int
    [0], on which the convolution that follows raises. *)
Definition py_sum (l : list Tensor) : result Tensor :=
  match l with
  | [] => Raise TypeError
  | t :: rest => fold_left (fun acc u => a <- acc ;; tadd a u) rest (Ok (scalar_radd rO t))
  end.

(** *** Convolution *)

(** [sum_upto n f = f 0 + ... + f (n-1)], accumulated from [0]. *)
Definition sum_upto (n : nat) (f : nat -> R) : R :=
  fold_left (fun acc i => radd acc (f i)) (seq 0 n) rO.

(** The input seen through [p] cells of zero padding on each border. *)
Definition padded_get (x : Tensor) (p : nat) (n c a b : nat) : R :=
  if (p <=? a) && (a <? p + tH x) && (p <=? b) && (b <? p + tW x)
  then get x n c (a - p) (b - p)
  else rO.

(** [F.conv2d(input, weight, None, stride=1, padding, dilation=1, groups)]:
    the shape checks of the library, then the cross-correlation.  The weight
    has shape (out_channels, in_channels / groups, kH, kW). *)
Definition conv2d (input weight : Tensor) (padding groups : nat) : result Tensor :=
  let Cout := tN weight in
  let Cin_g := tC weight in
  let kH := tH weight in
  let kW := tW weight in
  if groups =? 0 then Raise RuntimeError
  else if Cout <? groups then Raise RuntimeError
  else if negb (Cout mod groups =? 0) then Raise RuntimeError
  else if negb (tC input =? Cin_g * groups) then Raise RuntimeError
  else if (tH input + 2 * padding <? kH) || (tW input + 2 * padding <? kW)
  then Raise RuntimeError
  else Ok (tabulate (tN input) Cout
             (tH input + 2 * padding - kH + 1) (tW input + 2 * padding - kW + 1)
             (fun n co h w =>
                sum_upto Cin_g (fun ci =>
                  sum_upto kH (fun i =>
                    sum_upto kW (fun j =>
                      rmul (get weight co ci i j)
                           (padded_get input padding n
                              (co / (Cout / groups) * Cin_g + ci) (h + i) (w + j))))))).

(** [nn.Conv2d] with [bias=False]: the weight and the two options the
    source sets. *)
Record Conv2d : Type := mkConv2d {
  weight : Tensor;
  padding : nat;
  groups : nat
}.

(** [nn.Conv2d(in_channels, out_channels, kernel_size, padding=padding,
    groups=groups, bias=False)].  The checks are those of the library's
    constructor, in its order; the weight is allocated with shape
    (out_channels, in_channels // groups, k, k), which fails on a negative
    size.  [init] stands for the values the allocation and the random
    initialisation leave in the weight; as every well-formed tensor is the
    table of its own elements ([tabulate_get]), [init] ranges over all the
    values a weight of that shape can hold, trained ones included. *)
Definition Conv2d_init (in_channels out_channels : Z) (kernel_size padding : nat)
    (groups : Z) (init : nat -> nat -> nat -> nat -> R) : result Conv2d :=
  if (groups <=? 0)%Z then Raise ValueError
  else if negb (in_channels mod groups =? 0)%Z then Raise ValueError
  else if negb (out_channels mod groups =? 0)%Z then Raise ValueError
  else if (out_channels <? 0)%Z || (in_channels / groups <? 0)%Z then Raise RuntimeError
  else Ok {| weight := tabulate (Z.to_nat out_channels) (Z.to_nat (in_channels / groups))
                         kernel_size kernel_size init;
             padding := padding;
             groups := Z.to_nat groups |}.

Definition Conv2d_forward (self : Conv2d) (input : Tensor) : result Tensor :=
  conv2d input (weight self) (padding self) (groups self).

(** ** The module *)

Record MDBEM : Type := mkMDBEM {
  conv : Conv2d;
  depthwise : Conv2d;
  pointwise : Conv2d
}.

(** [MDBEM.__init__] *)
Definition MDBEM_init (in_channels : Z)
    (w_conv w_depthwise w_pointwise : nat -> nat -> nat -> nat -> R) : result MDBEM :=
  conv <- Conv2d_init in_channels in_channels 1 0 1 w_conv ;;
  depthwise <- Conv2d_init in_channels in_channels 3 1 in_channels w_depthwise ;;
  pointwise <- Conv2d_init in_channels in_channels 1 0 1 w_pointwise ;;
  Ok {| conv := conv; depthwise := depthwise; pointwise := pointwise |}.

(** [MDBEM.shift].  [B, C, H, W = x.shape] binds four names that no branch
    reads; it cannot fail on a 4-D tensor, the only kind [Tensor] holds (on
    a tensor of another rank Python raises [ValueError] there, which is
    outside this model).  Then the chain of comparisons of the source; a
    direction that matches none falls off the end of the function, which
    returns [None]. *)
Definition shift (x : Tensor) (direction : string) : option Tensor :=
  let '(B, C, H, W) := shape x in
  if String.eqb direction "up" then
    Some (pad (index x SliceFrom1 SliceAll) 0 0 0 1 rO)
  else if String.eqb direction "down" then
    Some (pad (index x SliceToLast SliceAll) 0 0 1 0 rO)
  else if String.eqb direction "left" then
    Some (pad (index x SliceAll SliceFrom1) 0 1 0 0 rO)
  else if String.eqb direction "right" then
    Some (pad (index x SliceAll SliceToLast) 1 0 0 0 rO)
  else if String.eqb direction "upleft" then
    Some (pad (index x SliceFrom1 SliceFrom1) 0 1 0 1 rO)
  else if String.eqb direction "upright" then
    Some (pad (index x SliceFrom1 SliceToLast) 1 0 0 1 rO)
  else if String.eqb direction "downleft" then
    Some (pad (index x SliceToLast SliceFrom1) 0 1 1 0 rO)
  else if String.eqb direction "downright" then
    Some (pad (index x SliceToLast SliceToLast) 1 0 1 0 rO)
  else None.

Definition directions : list string :=
  ["up"; "down"; "left"; "right"; "upleft"; "upright"; "downleft"; "downright"]%string.

(** The loop of [forward]: one difference [feat - shifted] per direction, in
    order.  Subtracting [None] raises [TypeError]. *)
Fixpoint direction_feats (feat : Tensor) (ds : list string) : result (list Tensor) :=
  match ds with
  | [] => Ok []
  | d :: ds' =>
      diff <- match shift feat d with
              | Some shifted => tsub feat shifted
              | None => Raise TypeError
              end ;;
      rest <- direction_feats feat ds' ;;
      Ok (diff :: rest)
  end.

(** [boundary_feat] of [forward], as a function of [feat]. *)
Definition boundary_feat (feat : Tensor) : result Tensor :=
  dfs <- direction_feats feat directions ;;
  py_sum dfs.

(** [refined_feat] of [forward], as a function of [boundary_feat]. *)
Definition refined_feat (self : MDBEM) (boundary : Tensor) : result Tensor :=
  dw <- Conv2d_forward (depthwise self) boundary ;;
  Conv2d_forward (pointwise self) dw.

(** [MDBEM.forward] *)
Definition forward (self : MDBEM) (x : Tensor) : result Tensor :=
  feat <- Conv2d_forward (conv self) x ;;
  boundary <- boundary_feat feat ;;
  refined <- refined_feat self boundary ;;
  tadd x refined.

End Model.

Arguments Tensor : clear implicits.
Arguments Conv2d : clear implicits.
Arguments MDBEM : clear implicits.

(** ** The specification's description of [apply]

    The definitions of this section follow the words of the specification,
    cell by cell; they are compared with the code's [forward] below. *)

Section Specification.

Context {R : Type} {SR : Scalar R}.

Definition rsum (l : list R) : R := fold_right radd rO l.

(** The (row offset, column offset) at which a shift in a direction reads
    its source cell.  The label names the way the content moves, as the
    docstring of [shift] has it: after a shift "up" the cell [(h, w)] holds
    what was at [(h + 1, w)], and the last row has nothing to take. *)
Definition offset_of (direction : string) : option (Z * Z) :=
  if String.eqb direction "up" then Some (1, 0)%Z
  else if String.eqb direction "down" then Some (-1, 0)%Z
  else if String.eqb direction "left" then Some (0, 1)%Z
  else if String.eqb direction "right" then Some (0, -1)%Z
  else if String.eqb direction "upleft" then Some (1, 1)%Z
  else if String.eqb direction "upright" then Some (1, -1)%Z
  else if String.eqb direction "downleft" then Some (-1, 1)%Z
  else if String.eqb direction "downright" then Some (-1, -1)%Z
  else None.

(** The eight offsets, in the order of the eight directions. *)
Definition offsets8 : list (Z * Z) :=
  [(1, 0); (-1, 0); (0, 1); (0, -1); (1, 1); (1, -1); (-1, 1); (-1, -1)]%Z.

Definition inside (x : Tensor R) (h w : Z) : bool :=
  ((0 <=? h) && (h <? Z.of_nat (tH x)) && (0 <=? w) && (w <? Z.of_nat (tW x)))%Z.

(** The value of the neighbour of [(h, w)] at offset [(dr, dc)], and zero
    when that neighbour lies outside the array. *)
Definition neighbour (x : Tensor R) (n c h w : nat) (dr dc : Z) : R :=
  if inside x (Z.of_nat h + dr) (Z.of_nat w + dc)
  then get x n c (Z.to_nat (Z.of_nat h + dr)) (Z.to_nat (Z.of_nat w + dc))
  else rO.

Definition spec_shifted (feat : Tensor R) (dr dc : Z) : Tensor R :=
  tabulate (tN feat) (tC feat) (tH feat) (tW feat)
    (fun n c h w => neighbour feat n c h w dr dc).

(** The directional difference [feat - shifted(feat, direction)]. *)
Definition spec_difference (feat : Tensor R) (o : Z * Z) : Tensor R :=
  tabulate (tN feat) (tC feat) (tH feat) (tW feat)
    (fun n c h w => rsub (get feat n c h w) (neighbour feat n c h w (fst o) (snd o))).

(** A per-pixel linear recombination across channels, no bias. *)
Definition spec_channel_mix (W : Tensor R) (x : Tensor R) : Tensor R :=
  tabulate (tN x) (tN W) (tH x) (tW x)
    (fun n c h w => rsum (map (fun k => rmul (get W c k 0 0) (get x n k h w)) (seq 0 (tC x)))).

(** The elementwise sum of the eight maps [feat - shifted(feat, d)]. *)
Definition spec_boundary_feat (feat : Tensor R) : Tensor R :=
  tabulate (tN feat) (tC feat) (tH feat) (tW feat)
    (fun n c h w =>
       rsum (map (fun o => rsub (get feat n c h w) (neighbour feat n c h w (fst o) (snd o)))
                 offsets8)).

(** The 3x3 filter of each channel, stride 1, zero padding of one cell. *)
Definition spec_depthwise (W : Tensor R) (b : Tensor R) : Tensor R :=
  tabulate (tN b) (tC b) (tH b) (tW b)
    (fun n c h w =>
       rsum (map (fun i =>
         rsum (map (fun j =>
           rmul (get W c 0 i j)
                (neighbour b n c h w (Z.of_nat i - 1) (Z.of_nat j - 1)))
           [0; 1; 2]))
         [0; 1; 2])).

Definition spec_pointwise (W : Tensor R) (x : Tensor R) : Tensor R := spec_channel_mix W x.

(** [input + pointwise(depthwise(boundary_feat))] *)
Definition spec_apply (self : MDBEM R) (x : Tensor R) : Tensor R :=
  let feat := spec_channel_mix (weight (conv self)) x in
  let refined :=
    spec_pointwise (weight (pointwise self))
      (spec_depthwise (weight (depthwise self)) (spec_boundary_feat feat)) in
  tabulate (tN x) (tC x) (tH x) (tW x)
    (fun n c h w => radd (get x n c h w) (get refined n c h w)).

(** Every position of the grid holds, in each channel of each item, the
    value [v] gives to that channel. *)
Definition spatially_constant (feat : Tensor R) (v : nat -> nat -> R) : Prop :=
  forall n c h w, n < tN feat -> c < tC feat -> h < tH feat -> w < tW feat ->
    get feat n c h w = v n c.

(** How many of the eight neighbours of [(h, w)] lie outside an [H x W] grid. *)
Definition outside_count (x : Tensor R) (h w : nat) : nat :=
  List.length (filter (fun o => negb (inside x (Z.of_nat h + fst o) (Z.of_nat w + snd o)))
                      offsets8).

(** [k * v] as a sum of [k] copies of [v]. *)
Fixpoint times (k : nat) (v : R) : R :=
  match k with
  | 0 => rO
  | S k' => radd v (times k' v)
  end.

End Specification.

(** ** Concrete data at [Z], for the examples *)

Definition zeros4 : nat -> nat -> nat -> nat -> Z := fun _ _ _ _ => 0%Z.
Definition ones4 : nat -> nat -> nat -> nat -> Z := fun _ _ _ _ => 1%Z.

(** The centre tap of a 3x3 kernel. *)
Definition centre4 : nat -> nat -> nat -> nat -> Z :=
  fun _ _ i j => if (i =? 1) && (j =? 1) then 1%Z else 0%Z.

(** A pattern with pairwise distinct entries. *)
Definition pattern4 : nat -> nat -> nat -> nat -> Z :=
  fun n c h w => Z.of_nat (1 + w + 10 * h + 100 * c + 1000 * n).

(** The 3x3 grid with a single centre pixel of the specification's scenario. *)
Definition centre_pixel : Tensor Z := tabulate 1 1 3 3 centre4.

Definition pattern33 : Tensor Z := tabulate 1 1 3 3 pattern4.


Definition ones11 : Tensor Z := tabulate 1 1 1 1 ones4.

(** A 4-channel input. *)
Definition pattern4ch : Tensor Z := tabulate 1 4 2 2 pattern4.

(** A 2-channel input. *)
Definition pattern2ch : Tensor Z := tabulate 1 2 2 2 pattern4.

(** One channel, the identity as channel mix and as refinement. *)
Definition unit_module : MDBEM Z :=
  {| conv := {| weight := tabulate 1 1 1 1 ones4; padding := 0; groups := 1 |};
     depthwise := {| weight := tabulate 1 1 3 3 centre4; padding := 1; groups := 1 |};
     pointwise := {| weight := tabulate 1 1 1 1 ones4; padding := 0; groups := 1 |} |}.

(** One channel, the identity as channel mix and zero refinement weights:
    the module of the specification's scenario. *)
Definition passthrough_module : MDBEM Z :=
  {| conv := {| weight := tabulate 1 1 1 1 ones4; padding := 0; groups := 1 |};
     depthwise := {| weight := tabulate 1 1 3 3 zeros4; padding := 1; groups := 1 |};
     pointwise := {| weight := tabulate 1 1 1 1 zeros4; padding := 0; groups := 1 |} |}.


(** ** Tensors and predicates used to state further properties *)

Section Derived.

Context {R : Type} {SR : Scalar R}.

(** [a + b] for two tensors of one shape: the tensor [tadd] returns. *)
Definition tensor_add (a b : Tensor R) : Tensor R :=
  tabulate (tN a) (tC a) (tH a) (tW a)
    (fun n c h w => radd (get a n c h w) (get b n c h w)).

(** [k * a] for a number [k]. *)
Definition tensor_scale (k : R) (a : Tensor R) : Tensor R :=
  tabulate (tN a) (tC a) (tH a) (tW a) (fun n c h w => rmul k (get a n c h w)).


(** [a] and [b] hold the same values, in every channel of item [n], at the
    positions at most [r] cells away from [(h, w)] on each axis. *)
Definition agree_near (r : nat) (a b : Tensor R) (n h w : nat) : Prop :=
  forall k h' w', k < tC a -> h' < tH a -> w' < tW a ->
    h' <= h + r -> h <= h' + r -> w' <= w + r -> w <= w' + r ->
    get a n k h' w' = get b n k h' w'.

End Derived.

(** A second 3x3 pattern. *)
Definition squares33 : Tensor Z :=
  tabulate 1 1 3 3 (fun _ _ h w => Z.of_nat ((h + 1) * (w + 1))).

(** A 4x4 pattern, and one that differs from it in the corner [(0, 0)] only. *)
Definition pattern44 : Tensor Z := tabulate 1 1 4 4 pattern4.

Definition pattern44_corner : Tensor Z :=
  tabulate 1 1 4 4 (fun n c h w => if (h =? 0) && (w =? 0) then 99%Z else pattern4 n c h w).


(** One channel with zero channel-mix weight and the identity as refinement. *)
Definition blind_module : MDBEM Z :=
  {| conv := {| weight := tabulate 1 1 1 1 zeros4; padding := 0; groups := 1 |};
     depthwise := {| weight := tabulate 1 1 3 3 centre4; padding := 1; groups := 1 |};
     pointwise := {| weight := tabulate 1 1 1 1 ones4; padding := 0; groups := 1 |} |}.

(** An input with no rows. *)
Definition no_rows : Tensor Z := tabulate 1 1 0 3 pattern4.


(** ** Concrete data at [float] *)








(** * Proofs *)

(** ** Lists *)

Section ListFacts.

Context {A : Type}.

Lemma length_tab (n : nat) (f : nat -> A) : length (tab n f) = n.
Proof. unfold tab. now rewrite length_map, length_seq. Qed.

Lemma nth_tab (n : nat) (f : nat -> A) (i : nat) (d : A) :
  i < n -> nth i (tab n f) d = f i.
Proof.
  intros Hi. unfold tab.
  rewrite (nth_indep _ d (f 0)) by now rewrite length_map, length_seq.
  rewrite map_nth, seq_nth by assumption. reflexivity.
Qed.

Lemma tab_ext (n : nat) (f g : nat -> A) :
  (forall i, i < n -> f i = g i) -> tab n f = tab n g.
Proof.
  intros E. unfold tab. apply map_ext_in.
  intros i Hi. apply in_seq in Hi. apply E. lia.
Qed.

Lemma nth_map_lt {B : Type} (f : A -> B) (l : list A) (i : nat) (d : A) (d' : B) :
  i < length l -> nth i (map f l) d' = f (nth i l d).
Proof.
  intros Hi. rewrite (nth_indep _ d' (f d)) by now rewrite length_map.
  apply map_nth.
Qed.

Lemma tab_nth (l : list A) (d : A) : tab (length l) (fun i => nth i l d) = l.
Proof.
  apply (nth_ext _ _ d d).
  - apply length_tab.
  - intros i Hi. rewrite length_tab in Hi. now apply nth_tab.
Qed.

Lemma length_removelast (l : list A) : length (removelast l) = pred (length l).
Proof.
  induction l as [|a [|b l] IH]; trivial.
  change (S (length (removelast (b :: l))) = S (length l)).
  rewrite IH. reflexivity.
Qed.

Lemma nth_removelast (l : list A) (i : nat) (d : A) :
  i < pred (length l) -> nth i (removelast l) d = nth i l d.
Proof.
  revert i. induction l as [|a [|b l] IH]; intros i Hi; simpl in Hi; try lia.
  destruct i as [|i]; [reflexivity|].
  change (nth i (removelast (b :: l)) d = nth i (b :: l) d).
  apply IH. simpl. lia.
Qed.

Lemma nth_tl (l : list A) (i : nat) (d : A) : nth i (tl l) d = nth (S i) l d.
Proof. destruct l; [now destruct i | reflexivity]. Qed.

Lemma length_apply_slice (s : pyslice) (l : list A) :
  length (apply_slice s l) = slice_len s (length l).
Proof.
  destruct s; simpl; trivial.
  - rewrite length_tl. lia.
  - apply length_removelast.
Qed.

Lemma nth_apply_slice (s : pyslice) (l : list A) (i : nat) (d : A) :
  i < slice_len s (length l) -> nth i (apply_slice s l) d = nth (i + slice_start s) l d.
Proof.
  destruct s; simpl; intros Hi.
  - now rewrite Nat.add_0_r.
  - rewrite nth_tl. f_equal. lia.
  - rewrite Nat.add_0_r. now apply nth_removelast.
Qed.

Lemma Forall_apply_slice (P : A -> Prop) (s : pyslice) (l : list A) :
  Forall P l -> Forall P (apply_slice s l).
Proof.
  intros F. destruct s; simpl; trivial.
  - destruct l; [constructor | now inversion F].
  - induction l as [|a [|b l] IH]; [constructor | constructor |].
    inversion F; subst. constructor; [assumption|]. now apply IH.
Qed.

Lemma Forall_repeat (P : A -> Prop) (a : A) (k : nat) : P a -> Forall P (repeat a k).
Proof. intros Pa. induction k; simpl; constructor; assumption. Qed.

Lemma nth_app_repeat (l : list A) (d : A) (k i : nat) :
  nth i (l ++ repeat d k) d = nth i l d.
Proof.
  destruct (Nat.lt_ge_cases i (length l)) as [Hi|Hi].
  - now apply app_nth1.
  - rewrite app_nth2, nth_repeat by assumption. symmetry. now apply nth_overflow.
Qed.

Lemma nth_repeat_app (l : list A) (d : A) (k i : nat) :
  nth i (repeat d k ++ l) d = if k <=? i then nth (i - k) l d else d.
Proof.
  destruct (Nat.leb_spec k i) as [Hi|Hi].
  - rewrite app_nth2 by now rewrite repeat_length.
    now rewrite repeat_length.
  - rewrite app_nth1 by now rewrite repeat_length.
    apply nth_repeat.
Qed.

End ListFacts.

(** ** Tensors: shape, well-formedness and reading *)

Section TensorFacts.

Context {R : Type} {SR : Scalar R}.

Lemma wf_tabulate (N C H W : nat) (f : nat -> nat -> nat -> nat -> R) :
  wf (tabulate N C H W f).
Proof.
  unfold wf, tabulate; simpl. split; [apply length_tab|].
  unfold tab at 1. apply Forall_map, Forall_forall. intros n _.
  split; [apply length_tab|].
  unfold tab at 1. apply Forall_map, Forall_forall. intros c _.
  split; [apply length_tab|].
  unfold tab at 1. apply Forall_map, Forall_forall. intros h _.
  apply length_tab.
Qed.

Lemma get_tabulate (N C H W : nat) (f : nat -> nat -> nat -> nat -> R) (n c h w : nat) :
  n < N -> c < C -> h < H -> w < W -> get (tabulate N C H W f) n c h w = f n c h w.
Proof.
  intros Hn Hc Hh Hw. unfold get, tabulate; simpl.
  now rewrite !nth_tab.
Qed.

Lemma tabulate_ext (N C H W : nat) (f g : nat -> nat -> nat -> nat -> R) :
  (forall n c h w, n < N -> c < C -> h < H -> w < W -> f n c h w = g n c h w) ->
  tabulate N C H W f = tabulate N C H W g.
Proof.
  intros E. unfold tabulate. f_equal.
  apply tab_ext; intros n Hn. apply tab_ext; intros c Hc.
  apply tab_ext; intros h Hh. apply tab_ext; intros w Hw. now apply E.
Qed.

Lemma wf_batch (x : Tensor R) (n : nat) :
  wf x -> n < tN x -> length (nth n (tdata x) []) = tC x.
Proof.
  intros [L F] Hn. rewrite <- L in Hn.
  exact (proj1 (proj1 (Forall_nth _ _) F n [] Hn)).
Qed.

Lemma wf_plane (x : Tensor R) (n c : nat) :
  wf x -> n < tN x -> c < tC x -> length (nth c (nth n (tdata x) []) []) = tH x.
Proof.
  intros Wx Hn Hc. pose proof (wf_batch x n Wx Hn) as Lb.
  destruct Wx as [L F]. rewrite <- L in Hn.
  pose proof (proj2 (proj1 (Forall_nth _ _) F n [] Hn)) as Fb.
  rewrite <- Lb in Hc.
  exact (proj1 (proj1 (Forall_nth _ _) Fb c [] Hc)).
Qed.

Lemma wf_row (x : Tensor R) (n c h : nat) :
  wf x -> n < tN x -> c < tC x -> h < tH x ->
  length (nth h (nth c (nth n (tdata x) []) []) []) = tW x.
Proof.
  intros Wx Hn Hc Hh.
  pose proof (wf_batch x n Wx Hn) as Lb. pose proof (wf_plane x n c Wx Hn Hc) as Lp.
  destruct Wx as [L F]. rewrite <- L in Hn.
  pose proof (proj2 (proj1 (Forall_nth _ _) F n [] Hn)) as Fb.
  rewrite <- Lb in Hc.
  pose proof (proj2 (proj1 (Forall_nth _ _) Fb c [] Hc)) as Fp.
  rewrite <- Lp in Hh.
  exact (proj1 (Forall_nth _ _) Fp h [] Hh).
Qed.

(** A well-formed tensor is the table of its own elements. *)
Lemma tabulate_get (x : Tensor R) :
  wf x -> tabulate (tN x) (tC x) (tH x) (tW x) (get x) = x.
Proof.
  intros Wx. destruct x as [N C H W data].
  unfold tabulate, get; simpl. f_equal.
  apply (nth_ext _ _ [] []).
  { rewrite length_tab. symmetry. apply Wx. }
  intros n Hn. rewrite length_tab in Hn. rewrite nth_tab by assumption.
  apply (nth_ext _ _ [] []).
  { rewrite length_tab. symmetry. now apply (wf_batch _ n Wx). }
  intros c Hc. rewrite length_tab in Hc. rewrite nth_tab by assumption.
  apply (nth_ext _ _ [] []).
  { rewrite length_tab. symmetry. now apply (wf_plane _ n c Wx). }
  intros h Hh. rewrite length_tab in Hh. rewrite nth_tab by assumption.
  apply (nth_ext _ _ rO rO).
  { rewrite length_tab. symmetry. now apply (wf_row _ n c h Wx). }
  intros w Hw. rewrite length_tab in Hw. now rewrite nth_tab.
Qed.

(** Two well-formed tensors of one shape with the same elements are equal. *)
Lemma tensor_ext (a b : Tensor R) :
  wf a -> wf b -> shape a = shape b ->
  (forall n c h w, n < tN a -> c < tC a -> h < tH a -> w < tW a ->
     get a n c h w = get b n c h w) ->
  a = b.
Proof.
  intros Wa Wb S E.
  rewrite <- (tabulate_get a Wa), <- (tabulate_get b Wb).
  unfold shape in S. injection S as <- <- <- <-.
  now apply tabulate_ext.
Qed.

Lemma get_outside (x : Tensor R) (n c h w : nat) :
  wf x -> tN x <= n \/ tC x <= c \/ tH x <= h \/ tW x <= w -> get x n c h w = rO.
Proof.
  intros Wx O. unfold get.
  destruct (Nat.lt_ge_cases n (tN x)) as [Hn|Hn].
  2:{ rewrite (nth_overflow (tdata x)) by (destruct Wx as [L _]; lia). now destruct c, h, w. }
  destruct (Nat.lt_ge_cases c (tC x)) as [Hc|Hc].
  2:{ rewrite (nth_overflow (nth n _ _)) by (rewrite wf_batch; trivial). now destruct h, w. }
  destruct (Nat.lt_ge_cases h (tH x)) as [Hh|Hh].
  2:{ rewrite (nth_overflow (nth c _ _)) by (rewrite wf_plane; trivial). now destruct w. }
  apply nth_overflow. rewrite wf_row by trivial. lia.
Qed.

(** *** Slicing *)

Lemma wf_index (x : Tensor R) (sh sw : pyslice) : wf x -> wf (index x sh sw).
Proof.
  intros [L F]. unfold wf, index; simpl. split; [now rewrite length_map|].
  apply Forall_map. eapply Forall_impl; [|exact F].
  intros b [Lb Fb]. split; [now rewrite length_map|].
  apply Forall_map. eapply Forall_impl; [|exact Fb].
  intros p [Lp Fp]. split.
  - now rewrite length_map, length_apply_slice, Lp.
  - apply Forall_map, Forall_apply_slice. eapply Forall_impl; [|exact Fp].
    intros r Lr. simpl in Lr. now rewrite length_apply_slice, Lr.
Qed.

Lemma get_index (x : Tensor R) (sh sw : pyslice) (n c h w : nat) :
  wf x -> n < tN x -> c < tC x ->
  h < slice_len sh (tH x) -> w < slice_len sw (tW x) ->
  get (index x sh sw) n c h w = get x n c (h + slice_start sh) (w + slice_start sw).
Proof.
  intros Wx Hn Hc Hh Hw. unfold get, index; simpl.
  rewrite (nth_map_lt _ _ _ []) by (destruct Wx as [L _]; lia).
  rewrite (nth_map_lt _ _ _ []) by (rewrite wf_batch; trivial).
  pose proof (wf_plane x n c Wx Hn Hc) as Lp.
  rewrite (nth_map_lt _ _ _ []) by (rewrite length_apply_slice, Lp; trivial).
  rewrite (nth_apply_slice sh) by (rewrite Lp; trivial).
  assert (Hh' : h + slice_start sh < tH x) by (destruct sh; simpl in *; lia).
  apply nth_apply_slice. rewrite wf_row; trivial.
Qed.

(** *** Padding *)

Lemma wf_pad (x : Tensor R) (l r t b : nat) (v : R) : wf x -> wf (pad x l r t b v).
Proof.
  intros [L F]. unfold wf, pad; simpl. split; [now rewrite length_map|].
  apply Forall_map. eapply Forall_impl; [|exact F].
  intros bt [Lb Fb]. split; [now rewrite length_map|].
  apply Forall_map. eapply Forall_impl; [|exact Fb].
  intros p [Lp Fp]. unfold pad_plane. split.
  - rewrite !length_app, !repeat_length, length_map. lia.
  - apply Forall_app; split; [|apply Forall_app; split].
    + apply Forall_repeat, repeat_length.
    + apply Forall_map. eapply Forall_impl; [|exact Fp].
      intros row Lr. simpl in Lr. unfold pad_row.
      rewrite !length_app, !repeat_length. lia.
    + apply Forall_repeat, repeat_length.
Qed.

Lemma nth_pad_row (l r : nat) (row : list R) (w : nat) :
  nth w (pad_row l r rO row) rO = if l <=? w then nth (w - l) row rO else rO.
Proof. unfold pad_row. rewrite nth_repeat_app. now rewrite nth_app_repeat. Qed.

Lemma nth_pad_plane (l r t b W : nat) (p : list (list R)) (h w : nat) :
  nth w (nth h (pad_plane l r t b rO W p) []) rO
  = if (t <=? h) && (l <=? w) then nth (w - l) (nth (h - t) p []) rO else rO.
Proof.
  unfold pad_plane.
  destruct (Nat.leb_spec t h) as [Ht|Ht]; simpl.
  - rewrite app_nth2 by now rewrite repeat_length.
    rewrite repeat_length.
    destruct (Nat.lt_ge_cases (h - t) (length p)) as [Hp|Hp].
    + rewrite app_nth1 by now rewrite length_map.
      rewrite (nth_map_lt _ _ _ []) by assumption. apply nth_pad_row.
    + rewrite app_nth2 by now rewrite length_map.
      rewrite (nth_overflow p) by assumption.
      rewrite length_map.
      assert (Nil : forall i, nth i (@nil R) rO = rO) by (intros [|?]; reflexivity).
      destruct (Nat.lt_ge_cases (h - t - length p) b) as [Hb|Hb].
      * rewrite nth_repeat_lt by assumption. rewrite nth_repeat, Nil.
        now destruct (l <=? w).
      * rewrite (nth_overflow (repeat _ b)) by now rewrite repeat_length.
        rewrite !Nil. now destruct (l <=? w).
  - rewrite app_nth1 by now rewrite repeat_length.
    rewrite nth_repeat_lt by assumption. apply nth_repeat.
Qed.

Lemma get_pad (x : Tensor R) (l r t b : nat) (n c h w : nat) :
  wf x -> n < tN x -> c < tC x ->
  get (pad x l r t b rO) n c h w
  = if (t <=? h) && (l <=? w) then get x n c (h - t) (w - l) else rO.
Proof.
  intros Wx Hn Hc. unfold get, pad; simpl.
  rewrite (nth_map_lt _ _ _ []) by (destruct Wx as [L _]; lia).
  rewrite (nth_map_lt _ _ _ []) by (rewrite wf_batch; trivial).
  apply nth_pad_plane.
Qed.

End TensorFacts.

(** ** The eight shifts *)

Ltac bool_cases :=
  repeat match goal with
  | |- context [Nat.eqb ?a ?b] => destruct (Nat.eqb_spec a b) as [?Heq|?Hne]
  | |- context [Nat.leb ?a ?b] => destruct (Nat.leb_spec a b) as [?Hle|?Hgt]
  | |- context [Nat.ltb ?a ?b] => destruct (Nat.ltb_spec a b) as [?Hlt|?Hge]
  | |- context [Z.eqb ?a ?b] => destruct (Z.eqb_spec a b) as [?Heq|?Hne]
  | |- context [Z.leb ?a ?b] => destruct (Z.leb_spec a b) as [?Hle|?Hgt]
  | |- context [Z.ltb ?a ?b] => destruct (Z.ltb_spec a b) as [?Hlt|?Hge]
  end; cbn [andb orb negb].

Section ShiftFacts.

Context {R : Type} {SR : Scalar R}.

Lemma offset_of_inv (d : string) (o : Z * Z) :
  offset_of d = Some o ->
  (d = "up"%string /\ o = (1, 0)%Z) \/ (d = "down"%string /\ o = (-1, 0)%Z) \/
  (d = "left"%string /\ o = (0, 1)%Z) \/ (d = "right"%string /\ o = (0, -1)%Z) \/
  (d = "upleft"%string /\ o = (1, 1)%Z) \/ (d = "upright"%string /\ o = (1, -1)%Z) \/
  (d = "downleft"%string /\ o = (-1, 1)%Z) \/ (d = "downright"%string /\ o = (-1, -1)%Z).
Proof.
  unfold offset_of.
  repeat match goal with
  | |- (if String.eqb ?v ?s then _ else _) = _ -> _ =>
      is_var v; destruct (String.eqb_spec v s) as [?|?];
      [intros E; injection E as <-; tauto|]
  end.
  discriminate.
Qed.

Lemma offset_of_directions (d : string) :
  In d directions <-> exists o, offset_of d = Some o.
Proof.
  split.
  - intros I. unfold directions in I. simpl in I.
    repeat (destruct I as [<-|I]; [eexists; reflexivity|]). contradiction.
  - intros [o E]. apply offset_of_inv in E.
    unfold directions. simpl.
    repeat (destruct E as [[-> _]|E]; [tauto|]). destruct E as [-> _]. tauto.
Qed.

Lemma shift_unknown (x : Tensor R) (d : string) :
  ~ In d directions -> shift x d = None.
Proof.
  intros NI. unfold shift, shape. cbv beta iota.
  repeat match goal with
  | |- (if String.eqb ?v ?s then _ else _) = _ =>
      is_var v; destruct (String.eqb_spec v s) as [->|?];
      [exfalso; apply NI; unfold directions; simpl; tauto|]
  end.
  reflexivity.
Qed.

(** A slice followed by a padding, cell by cell. *)
Lemma get_pad_index (x : Tensor R) (sh sw : pyslice) (l r t b : nat) (n c h w : nat) :
  wf x -> n < tN x -> c < tC x ->
  get (pad (index x sh sw) l r t b rO) n c h w
  = if (t <=? h) && (l <=? w) && (h - t <? slice_len sh (tH x))
       && (w - l <? slice_len sw (tW x))
    then get x n c (h - t + slice_start sh) (w - l + slice_start sw)
    else rO.
Proof.
  intros Wx Hn Hc.
  rewrite get_pad by first [apply wf_index; assumption | assumption].
  destruct ((t <=? h) && (l <=? w)); simpl; trivial.
  destruct (Nat.ltb_spec (h - t) (slice_len sh (tH x))) as [Hh|Hh]; simpl.
  - destruct (Nat.ltb_spec (w - l) (slice_len sw (tW x))) as [Hw|Hw]; simpl.
    + now apply get_index.
    + apply get_outside; [now apply wf_index | simpl; tauto].
  - apply get_outside; [now apply wf_index | simpl; tauto].
Qed.

(** What [shift] returns for a recognised direction, on any well-formed
    tensor: its shape and every one of its cells. *)
Lemma shift_cells (x : Tensor R) (d : string) (dr dc : Z) :
  wf x -> offset_of d = Some (dr, dc) ->
  exists y, shift x d = Some y /\ wf y /\
    tN y = tN x /\ tC y = tC x /\
    tH y = Nat.max (tH x) (Z.abs_nat dr) /\
    tW y = Nat.max (tW x) (Z.abs_nat dc) /\
    forall n c h w, n < tN y -> c < tC y -> h < tH y -> w < tW y ->
      get y n c h w = neighbour x n c h w dr dc.
Proof.
  intros Wx E. apply offset_of_inv in E.
  repeat destruct E as [E|E]; destruct E as [-> E]; injection E as -> ->;
    (eexists; split; [reflexivity|]);
    (split; [apply wf_pad, wf_index, Wx|]);
    cbn [tN tC tH tW pad index slice_len]; repeat (split; [lia|]);
    intros n c h w Hn Hc Hh Hw;
    rewrite get_pad_index by assumption;
    unfold neighbour, inside; cbn [slice_len slice_start];
    bool_cases; trivial; try lia; f_equal; lia.
Qed.

(** For a recognised direction [shift] returns a tensor, whatever the
    input; its shape follows from the slice and the padding. *)
Lemma shift_shape (x : Tensor R) (d : string) (dr dc : Z) :
  offset_of d = Some (dr, dc) ->
  exists y, shift x d = Some y /\
    tN y = tN x /\ tC y = tC x /\
    tH y = Nat.max (tH x) (Z.abs_nat dr) /\
    tW y = Nat.max (tW x) (Z.abs_nat dc) /\
    (wf x -> wf y).
Proof.
  intros E. apply offset_of_inv in E.
  repeat destruct E as [E|E]; destruct E as [-> E]; injection E as -> ->;
    (eexists; split; [reflexivity|]);
    cbn [tN tC tH tW pad index slice_len]; repeat (split; [lia|]);
    intros Wx; apply wf_pad, wf_index, Wx.
Qed.

(** On a tensor with at least one row and one column, [shift] is the
    zero-filled translation of the specification. *)
Lemma shift_spec (x : Tensor R) (d : string) (dr dc : Z) :
  wf x -> 1 <= tH x -> 1 <= tW x -> offset_of d = Some (dr, dc) ->
  shift x d = Some (spec_shifted x dr dc).
Proof.
  intros Wx HH HW E.
  destruct (shift_cells x d dr dc Wx E) as (y & -> & Wy & SN & SC & SH & SW & G).
  f_equal. apply tensor_ext; trivial.
  - apply wf_tabulate.
  - apply offset_of_inv in E.
    unfold shape, spec_shifted; simpl. rewrite SN, SC, SH, SW.
    repeat destruct E as [E|E]; destruct E as [_ E]; injection E as -> ->;
      simpl; repeat f_equal; lia.
  - intros n c h w Hn Hc Hh Hw. rewrite G by assumption.
    unfold spec_shifted. rewrite get_tabulate; trivial; lia || idtac.
    + apply offset_of_inv in E.
      repeat destruct E as [E|E]; destruct E as [_ E]; injection E as -> ->;
        simpl in SH; lia.
    + apply offset_of_inv in E.
      repeat destruct E as [E|E]; destruct E as [_ E]; injection E as -> ->;
        simpl in SW; lia.
Qed.

End ShiftFacts.

(** ** Elementwise arithmetic and sums *)

Section ArithmeticFacts.

Context {R : Type} {SR : Scalar R} {SRing : ScalarRing R}.

Add Ring scalar_ring_inst : scalar_ring.

Lemma binop_same_shape (f : R -> R -> R) (a b : Tensor R) :
  shape a = shape b ->
  binop f a b = Ok (tabulate (tN a) (tC a) (tH a) (tW a)
                      (fun n c h w => f (get a n c h w) (get b n c h w))).
Proof.
  intros S. unfold shape in S. injection S as SN SC SH SW.
  unfold binop, broadcast_dim. rewrite <- SN, <- SC, <- SH, <- SW, !Nat.eqb_refl.
  f_equal. apply tabulate_ext. intros n c h w Hn Hc Hh Hw.
  unfold bidx.
  repeat match goal with
  | |- context [Nat.eqb ?a 1] => destruct (Nat.eqb_spec a 1)
  end; repeat f_equal; lia.
Qed.

Lemma scalar_radd_zero (t : Tensor R) : wf t -> scalar_radd rO t = t.
Proof.
  intros Wt. unfold scalar_radd. rewrite <- (tabulate_get t Wt) at 5.
  apply tabulate_ext. intros. ring.
Qed.

(** The accumulation of [sum] over tensors of one shape, cell by cell. *)
Lemma fold_tadd_same_shape (N C H W : nat) (l : list (Tensor R))
    (g : nat -> nat -> nat -> nat -> R) :
  Forall (fun u => shape u = (N, C, H, W)) l ->
  fold_left (fun acc u => a <- acc ;; tadd a u) l (Ok (tabulate N C H W g))
  = Ok (tabulate N C H W (fun n c h w =>
          fold_left radd (map (fun u => get u n c h w) l) (g n c h w))).
Proof.
  intros F. revert g. induction F as [|u l Su F IH]; intros g; simpl.
  - reflexivity.
  - unfold tadd at 2. rewrite binop_same_shape by (now rewrite Su).
    cbn [tN tC tH tW tabulate].
    rewrite <- IH. do 2 f_equal. apply tabulate_ext.
    intros n c h w Hn Hc Hh Hw. now rewrite get_tabulate.
Qed.

Lemma fold_left_radd (l : list R) (a : R) : fold_left radd l a = radd a (rsum l).
Proof.
  revert a. induction l as [|b l IH]; intros a; simpl.
  - ring.
  - rewrite IH. ring.
Qed.

Lemma py_sum_same_shape (t : Tensor R) (l : list (Tensor R)) :
  wf t -> Forall (fun u => shape u = shape t) l ->
  py_sum (t :: l)
  = Ok (tabulate (tN t) (tC t) (tH t) (tW t) (fun n c h w =>
          rsum (map (fun u => get u n c h w) (t :: l)))).
Proof.
  intros Wt F. unfold py_sum. rewrite scalar_radd_zero by assumption.
  rewrite <- (tabulate_get t Wt) at 1.
  rewrite fold_tadd_same_shape by exact F.
  f_equal. apply tabulate_ext. intros n c h w Hn Hc Hh Hw.
  rewrite fold_left_radd. reflexivity.
Qed.

Lemma sum_upto_rsum (n : nat) (f : nat -> R) : sum_upto n f = rsum (map f (seq 0 n)).
Proof.
  unfold sum_upto.
  assert (G : forall l a, fold_left (fun acc i => radd acc (f i)) l a
                          = radd a (rsum (map f l))).
  { induction l as [|i l IH]; intros a; simpl; [ring | rewrite IH; ring]. }
  rewrite G. ring.
Qed.

Lemma rsum_map_ext {A : Type} (f g : A -> R) (l : list A) :
  (forall a, In a l -> f a = g a) -> rsum (map f l) = rsum (map g l).
Proof. intros E. f_equal. now apply map_ext_in. Qed.

Lemma rsum_map_zero {A : Type} (f : A -> R) (l : list A) :
  (forall a, In a l -> f a = rO) -> rsum (map f l) = rO.
Proof.
  induction l as [|a l IH]; intros Z; simpl; [reflexivity|].
  rewrite Z by now left. rewrite IH by (intros; apply Z; now right). ring.
Qed.

Lemma times_zero (k : nat) : times k rO = rO.
Proof. induction k as [|k IH]; simpl; [reflexivity | rewrite IH; ring]. Qed.

End ArithmeticFacts.

(** ** The three convolutions *)

Section ConvFacts.

Context {R : Type} {SR : Scalar R} {SRing : ScalarRing R}.

Add Ring scalar_ring_conv : scalar_ring.

Lemma padded_get_neighbour (x : Tensor R) (n c h w i j : nat) :
  padded_get x 1 n c (h + i) (w + j)
  = neighbour x n c h w (Z.of_nat i - 1) (Z.of_nat j - 1).
Proof.
  unfold padded_get, neighbour, inside.
  bool_cases; trivial; try lia; f_equal; lia.
Qed.

Lemma padded_get_0 (x : Tensor R) (n c h w : nat) :
  h < tH x -> w < tW x -> padded_get x 0 n c (h + 0) (w + 0) = get x n c h w.
Proof.
  intros Hh Hw. unfold padded_get.
  bool_cases; try lia. f_equal; lia.
Qed.

(** A 1x1 convolution with one group is the channel mix of the specification. *)
Lemma conv2d_1x1 (x Wt : Tensor R) :
  tH Wt = 1 -> tW Wt = 1 -> 1 <= tN Wt -> tC x = tC Wt ->
  1 <= tH x -> 1 <= tW x ->
  conv2d x Wt 0 1 = Ok (spec_channel_mix Wt x).
Proof.
  intros KH KW Cout Cin HH HW. unfold conv2d, spec_channel_mix.
  rewrite Nat.mod_1_r, Nat.mul_1_r, Nat.div_1_r, KH, KW.
  bool_cases; try lia.
  replace (tH x + 2 * 0 - 1 + 1) with (tH x) by lia.
  replace (tW x + 2 * 0 - 1 + 1) with (tW x) by lia.
  f_equal. apply tabulate_ext. intros n co h w Hn Hco Hh Hw.
  rewrite sum_upto_rsum, Cin. apply rsum_map_ext. intros k Hk.
  unfold sum_upto. cbn [seq fold_left].
  rewrite Nat.div_small by assumption. cbn [Nat.mul Nat.add].
  rewrite padded_get_0 by assumption. ring.
Qed.

(** With a channel count other than the weight's, it raises. *)
Lemma conv2d_1x1_channels (x Wt : Tensor R) :
  1 <= tN Wt -> tC x <> tC Wt -> conv2d x Wt 0 1 = Raise RuntimeError.
Proof.
  intros Cout Cin. unfold conv2d.
  rewrite Nat.mod_1_r, Nat.mul_1_r.
  bool_cases; trivial; lia.
Qed.

(** And so it does on an input with an empty spatial axis. *)
Lemma conv2d_1x1_empty (x Wt : Tensor R) :
  tH Wt = 1 -> tW Wt = 1 -> tH x = 0 \/ tW x = 0 -> conv2d x Wt 0 1 = Raise RuntimeError.
Proof.
  intros KH KW E. unfold conv2d.
  rewrite KH, KW.
  repeat match goal with
  | |- (if ?b then _ else _) = _ => destruct b eqn:?; trivial
  end.
  exfalso.
  match goal with
  | K : orb _ _ = false |- _ =>
      apply orb_false_iff in K; destruct K as [K1 K2];
      apply Nat.ltb_ge in K1, K2
  end.
  lia.
Qed.


(** The depthwise convolution: one group per channel, a 3x3 kernel and one
    cell of padding. *)
Lemma conv2d_depthwise (x Wt : Tensor R) :
  tC Wt = 1 -> tH Wt = 3 -> tW Wt = 3 -> 1 <= tN Wt -> tC x = tN Wt ->
  1 <= tH x -> 1 <= tW x ->
  conv2d x Wt 1 (tN Wt) = Ok (spec_depthwise Wt x).
Proof.
  intros KC KH KW Cout Cin HH HW. unfold conv2d, spec_depthwise.
  rewrite Nat.Div0.mod_same, Nat.div_same by lia. rewrite KC, KH, KW.
  bool_cases; try lia.
  replace (tH x + 2 * 1 - 3 + 1) with (tH x) by lia.
  replace (tW x + 2 * 1 - 3 + 1) with (tW x) by lia.
  rewrite Cin.
  f_equal. apply tabulate_ext. intros n co h w Hn Hco Hh Hw.
  unfold sum_upto. cbn [seq fold_left map rsum fold_right].
  rewrite Nat.div_1_r, Nat.mul_1_r, Nat.add_0_r.
  rewrite !padded_get_neighbour. ring.
Qed.

End ConvFacts.

(** ** Construction *)

Section InitFacts.

Context {R : Type} {SR : Scalar R}.

Lemma MDBEM_init_pos (c : Z) (w1 w2 w3 : nat -> nat -> nat -> nat -> R) :
  (0 < c)%Z ->
  MDBEM_init c w1 w2 w3
  = Ok {| conv := {| weight := tabulate (Z.to_nat c) (Z.to_nat c) 1 1 w1;
                     padding := 0; groups := 1 |};
          depthwise := {| weight := tabulate (Z.to_nat c) 1 3 3 w2;
                          padding := 1; groups := Z.to_nat c |};
          pointwise := {| weight := tabulate (Z.to_nat c) (Z.to_nat c) 1 1 w3;
                          padding := 0; groups := 1 |} |}.
Proof.
  intros Pc. unfold MDBEM_init, Conv2d_init.
  rewrite Z.mod_1_r, Z.div_1_r, Z.mod_same, Z.div_same by lia.
  change (1 <=? 0)%Z with false. change (0 =? 0)%Z with true.
  change (1 <? 0)%Z with false. change (Z.to_nat 1) with 1.
  cbn [negb].
  destruct (Z.ltb_spec c 0); [lia|].
  destruct (Z.leb_spec c 0); [lia|].
  reflexivity.
Qed.

Lemma MDBEM_init_zero (w1 w2 w3 : nat -> nat -> nat -> nat -> R) :
  MDBEM_init 0 w1 w2 w3 = Raise ValueError.
Proof. reflexivity. Qed.

Lemma MDBEM_init_neg (c : Z) (w1 w2 w3 : nat -> nat -> nat -> nat -> R) :
  (c < 0)%Z -> MDBEM_init c w1 w2 w3 = Raise RuntimeError.
Proof.
  intros Nc. unfold MDBEM_init, Conv2d_init.
  rewrite Z.mod_1_r, Z.div_1_r.
  change (1 <=? 0)%Z with false. change (0 =? 0)%Z with true.
  cbn [negb].
  destruct (Z.ltb_spec c 0); [reflexivity | lia].
Qed.

Lemma MDBEM_init_Ok (c : Z) (w1 w2 w3 : nat -> nat -> nat -> nat -> R) (self : MDBEM R) :
  MDBEM_init c w1 w2 w3 = Ok self ->
  (0 < c)%Z /\
  self = {| conv := {| weight := tabulate (Z.to_nat c) (Z.to_nat c) 1 1 w1;
                       padding := 0; groups := 1 |};
            depthwise := {| weight := tabulate (Z.to_nat c) 1 3 3 w2;
                            padding := 1; groups := Z.to_nat c |};
            pointwise := {| weight := tabulate (Z.to_nat c) (Z.to_nat c) 1 1 w3;
                            padding := 0; groups := 1 |} |}.
Proof.
  intros E. destruct (Z.lt_trichotomy c 0) as [Nc|[->|Pc]].
  - rewrite MDBEM_init_neg in E by assumption. discriminate.
  - rewrite MDBEM_init_zero in E. discriminate.
  - rewrite MDBEM_init_pos in E by assumption. injection E as <-. now split.
Qed.

End InitFacts.

(** ** The steps of [forward] *)

Section ForwardFacts.

Context {R : Type} {SR : Scalar R} {SRing : ScalarRing R}.

Add Ring scalar_ring_forward : scalar_ring.

Lemma tsub_shifted (feat : Tensor R) (dr dc : Z) :
  tsub feat (spec_shifted feat dr dc) = Ok (spec_difference feat (dr, dc)).
Proof.
  unfold tsub. rewrite binop_same_shape by reflexivity.
  f_equal. apply tabulate_ext. intros n c h w Hn Hc Hh Hw.
  unfold spec_shifted. now rewrite get_tabulate.
Qed.

Lemma direction_feats_spec (feat : Tensor R) :
  wf feat -> 1 <= tH feat -> 1 <= tW feat ->
  direction_feats feat directions = Ok (map (spec_difference feat) offsets8).
Proof.
  intros Wf HH HW. unfold directions. cbn [direction_feats].
  rewrite (shift_spec feat "up" 1 0), (shift_spec feat "down" (-1) 0),
    (shift_spec feat "left" 0 1), (shift_spec feat "right" 0 (-1)),
    (shift_spec feat "upleft" 1 1), (shift_spec feat "upright" 1 (-1)),
    (shift_spec feat "downleft" (-1) 1), (shift_spec feat "downright" (-1) (-1))
    by first [assumption | reflexivity].
  rewrite !tsub_shifted. reflexivity.
Qed.

Lemma boundary_feat_spec (feat : Tensor R) :
  wf feat -> 1 <= tH feat -> 1 <= tW feat ->
  boundary_feat feat = Ok (spec_boundary_feat feat).
Proof.
  intros Wf HH HW. unfold boundary_feat.
  rewrite direction_feats_spec by assumption. cbn [bind offsets8 map].
  rewrite py_sum_same_shape.
  - f_equal. unfold spec_boundary_feat. cbn [tN tC tH tW spec_difference tabulate].
    apply tabulate_ext. intros n c h w Hn Hc Hh Hw.
    cbn [map offsets8]. unfold spec_difference.
    now rewrite !get_tabulate.
  - apply wf_tabulate.
  - repeat constructor.
Qed.

Lemma refined_feat_spec (c : nat) (w1 w2 w3 : nat -> nat -> nat -> nat -> R)
    (b : Tensor R) :
  1 <= c -> tC b = c -> 1 <= tH b -> 1 <= tW b ->
  let self := {| conv := {| weight := tabulate c c 1 1 w1; padding := 0; groups := 1 |};
                 depthwise := {| weight := tabulate c 1 3 3 w2; padding := 1; groups := c |};
                 pointwise := {| weight := tabulate c c 1 1 w3; padding := 0; groups := 1 |} |} in
  refined_feat self b
  = Ok (spec_pointwise (weight (pointwise self)) (spec_depthwise (weight (depthwise self)) b)).
Proof.
  intros Pc Cb HH HW self. unfold refined_feat, Conv2d_forward, self.
  cbn [depthwise pointwise weight padding groups].
  change c with (tN (tabulate c 1 3 3 w2)) at 4.
  rewrite conv2d_depthwise by (trivial; cbn [tN tabulate]; lia).
  cbn [bind]. unfold spec_pointwise.
  apply conv2d_1x1; trivial; cbn [tN tC tH tW tabulate spec_depthwise]; lia.
Qed.

End ForwardFacts.

(** ** [forward] against the specification *)

Section ForwardSpec.

Context {R : Type} {SR : Scalar R} {SRing : ScalarRing R}.

(** The whole of [forward] on an instance built by [MDBEM_init], for an
    input with the configured channel count and no empty spatial axis. *)
Lemma forward_unfold (c : Z) (w1 w2 w3 : nat -> nat -> nat -> nat -> R)
    (self : MDBEM R) (x : Tensor R) :
  MDBEM_init c w1 w2 w3 = Ok self ->
  Z.of_nat (tC x) = c -> 1 <= tH x -> 1 <= tW x ->
  forward self x = Ok (spec_apply self x).
Proof.
  intros I Cx HH HW. apply MDBEM_init_Ok in I. destruct I as [Pc ->].
  rewrite <- Cx in *. rewrite Nat2Z.id.
  assert (PC : 1 <= tC x) by lia.
  unfold forward, spec_apply, Conv2d_forward at 1.
  cbn [conv depthwise pointwise weight padding groups].
  rewrite conv2d_1x1 by (trivial; cbn [tN tabulate]; lia).
  cbn [bind].
  rewrite boundary_feat_spec by first [apply wf_tabulate | assumption].
  cbn [bind].
  pose proof (refined_feat_spec (tC x) w1 w2 w3
                (spec_boundary_feat (spec_channel_mix (tabulate (tC x) (tC x) 1 1 w1) x))
                PC eq_refl HH HW) as Rf.
  cbv zeta in Rf. cbn [depthwise pointwise weight] in Rf. rewrite Rf.
  cbn [bind]. unfold tadd. now rewrite binop_same_shape.
Qed.

(** On an input with another channel count the first convolution raises. *)
Lemma forward_channels (c : Z) (w1 w2 w3 : nat -> nat -> nat -> nat -> R)
    (self : MDBEM R) (x : Tensor R) :
  MDBEM_init c w1 w2 w3 = Ok self ->
  Z.of_nat (tC x) <> c ->
  forward self x = Raise RuntimeError.
Proof.
  intros I Cx. apply MDBEM_init_Ok in I. destruct I as [Pc ->].
  unfold forward, Conv2d_forward at 1.
  cbn [conv weight padding groups].
  rewrite conv2d_1x1_channels; [reflexivity | |]; cbn [tN tC tabulate]; lia.
Qed.

(** So it does on an input with an empty spatial axis, which is why the
    specification asks for H >= 1 and W >= 1. *)
Lemma forward_empty_axis (c : Z) (w1 w2 w3 : nat -> nat -> nat -> nat -> R)
    (self : MDBEM R) (x : Tensor R) :
  MDBEM_init c w1 w2 w3 = Ok self ->
  tH x = 0 \/ tW x = 0 ->
  forward self x = Raise RuntimeError.
Proof.
  intros I E. apply MDBEM_init_Ok in I. destruct I as [Pc ->].
  unfold forward, Conv2d_forward at 1.
  cbn [conv weight padding groups].
  now rewrite conv2d_1x1_empty.
Qed.

End ForwardSpec.

(** ** Zero tensors and flat feature maps *)

Section ZeroFacts.

Context {R : Type} {SR : Scalar R} {SRing : ScalarRing R}.

Add Ring scalar_ring_zero : scalar_ring.

Lemma all_zero_tabulate (N C H W : nat) (f : nat -> nat -> nat -> nat -> R) :
  (forall n c h w, n < N -> c < C -> h < H -> w < W -> f n c h w = rO) ->
  all_zero (tabulate N C H W f).
Proof.
  intros Z n c h w Hn Hc Hh Hw. cbn [tN tC tH tW tabulate] in *.
  rewrite get_tabulate by assumption. now apply Z.
Qed.

Lemma inside_bounds (x : Tensor R) (h w : nat) (dr dc : Z) :
  inside x (Z.of_nat h + dr) (Z.of_nat w + dc) = true ->
  Z.to_nat (Z.of_nat h + dr) < tH x /\ Z.to_nat (Z.of_nat w + dc) < tW x.
Proof. unfold inside. bool_cases; intros E; try discriminate. lia. Qed.

Lemma neighbour_zero (b : Tensor R) (n c h w : nat) (dr dc : Z) :
  all_zero b -> n < tN b -> c < tC b -> neighbour b n c h w dr dc = rO.
Proof.
  intros Zb Hn Hc. unfold neighbour.
  destruct (inside b _ _) eqn:I; [|reflexivity].
  apply inside_bounds in I. now apply Zb.
Qed.

Lemma spec_depthwise_zero_input (Wt b : Tensor R) :
  all_zero b -> all_zero (spec_depthwise Wt b).
Proof.
  intros Zb. apply all_zero_tabulate. intros n c h w Hn Hc Hh Hw.
  apply rsum_map_zero. intros i _. apply rsum_map_zero. intros j _.
  rewrite neighbour_zero by assumption. ring.
Qed.

Lemma spec_channel_mix_zero_input (Wt x : Tensor R) :
  all_zero x -> all_zero (spec_channel_mix Wt x).
Proof.
  intros Zx. apply all_zero_tabulate. intros n c h w Hn Hc Hh Hw.
  apply rsum_map_zero. intros k Hk. apply in_seq in Hk.
  rewrite Zx by (trivial; lia). ring.
Qed.

Lemma spec_channel_mix_zero_weight (Wt x : Tensor R) :
  all_zero Wt -> tC x <= tC Wt -> 1 <= tH Wt -> 1 <= tW Wt ->
  all_zero (spec_channel_mix Wt x).
Proof.
  intros ZW Cin KH KW. apply all_zero_tabulate. intros n c h w Hn Hc Hh Hw.
  apply rsum_map_zero. intros k Hk. apply in_seq in Hk.
  rewrite ZW by lia. ring.
Qed.

Lemma spec_boundary_feat_zero (feat : Tensor R) :
  all_zero feat -> all_zero (spec_boundary_feat feat).
Proof.
  intros Zf. apply all_zero_tabulate. intros n c h w Hn Hc Hh Hw.
  apply rsum_map_zero. intros o _.
  rewrite neighbour_zero, Zf by assumption. ring.
Qed.

(** Adding a zero tensor of its shape to a well-formed tensor gives it back. *)
Lemma tabulate_add_zero (x r : Tensor R) :
  wf x -> shape r = shape x -> all_zero r ->
  tabulate (tN x) (tC x) (tH x) (tW x)
    (fun n c h w => radd (get x n c h w) (get r n c h w)) = x.
Proof.
  intros Wx S Zr. unfold shape in S. injection S as SN SC SH SW.
  transitivity (tabulate (tN x) (tC x) (tH x) (tW x) (get x));
    [|now apply tabulate_get].
  apply tabulate_ext. intros n c h w Hn Hc Hh Hw.
  rewrite Zr by lia. ring.
Qed.

(** A flat feature map against one of its shifts. *)
Lemma flat_difference (feat : Tensor R) (v : nat -> nat -> R) (n c h w : nat) (dr dc : Z) :
  spatially_constant feat v ->
  n < tN feat -> c < tC feat -> h < tH feat -> w < tW feat ->
  rsub (get feat n c h w) (neighbour feat n c h w dr dc)
  = if inside feat (Z.of_nat h + dr) (Z.of_nat w + dc) then rO else v n c.
Proof.
  intros Fl Hn Hc Hh Hw. unfold neighbour.
  rewrite (Fl n c h w) by assumption.
  destruct (inside feat _ _) eqn:I.
  - apply inside_bounds in I. rewrite Fl by tauto. ring.
  - ring.
Qed.

Lemma rsum_indicator {A : Type} (P : A -> bool) (v : R) (l : list A) :
  rsum (map (fun o => if P o then rO else v) l)
  = times (length (filter (fun o => negb (P o)) l)) v.
Proof.
  induction l as [|o l IH]; simpl; [reflexivity|].
  rewrite IH. destruct (P o); simpl; ring.
Qed.

Lemma flat_boundary (feat : Tensor R) (v : nat -> nat -> R) (n c h w : nat) :
  spatially_constant feat v ->
  n < tN feat -> c < tC feat -> h < tH feat -> w < tW feat ->
  get (spec_boundary_feat feat) n c h w = times (outside_count feat h w) (v n c).
Proof.
  intros Fl Hn Hc Hh Hw. unfold spec_boundary_feat, outside_count.
  rewrite get_tabulate by assumption.
  rewrite <- rsum_indicator. apply rsum_map_ext. intros o _.
  now apply flat_difference.
Qed.

End ZeroFacts.

(** * The claims of the specification *)

Section Claims.

Context {R : Type} {SR : Scalar R} {SRing : ScalarRing R}.

Add Ring scalar_ring_claims : scalar_ring.

(** C1.  On an instance constructed with [in_channels = c], for every input
    of shape (N, C, H, W) with [C = c] (and, as the operation requires,
    H >= 1 and W >= 1), [forward] returns exactly
    [input + pointwise(depthwise(boundary_feat))], where
    [feat = channel-mix(input)], [boundary_feat] is the elementwise sum of
    the eight maps [feat - shifted(feat, d)], [depthwise] is the per-channel
    3x3 stride-1 filter with zero padding 1 and [pointwise] the bias-free
    cross-channel recombination: the code's [forward] equals [spec_apply],
    the cell-by-cell definition that follows the specification's words. *)
Theorem forward_refines_specification (c : Z) (w1 w2 w3 : nat -> nat -> nat -> nat -> R)
    (self : MDBEM R) (x : Tensor R) :
  MDBEM_init c w1 w2 w3 = Ok self ->
  Z.of_nat (tC x) = c -> 1 <= tH x -> 1 <= tW x ->
  forward self x = Ok (spec_apply self x).
Proof. apply forward_unfold. Qed.

(** C2.  For each of the eight directions, with the offset [(dr, dc)] that
    [offset_of] gives it (one cell on each relevant axis, both axes for the
    diagonals: up (1, 0), down (-1, 0), left (0, 1), right (0, -1), upleft
    (1, 1), upright (1, -1), downleft (-1, 1), downright (-1, -1)), and for
    every 4-D input [x], [shift] returns a tensor [y] whose every cell
    [(h, w)] holds the value of [x] at [(h + dr, w + dc)] when that
    neighbour lies inside the array and zero when it lies outside (no
    wrap-around); [y] has the batch and channel sizes of [x] and, when [x]
    has at least one row and one column, the shape of [x].  In particular
    the last row of the "up" shift is zero. *)
Theorem shift_reads_neighbour_or_zero (x : Tensor R) (d : string) (dr dc : Z) :
  wf x -> offset_of d = Some (dr, dc) ->
  (Z.abs dr <= 1 /\ Z.abs dc <= 1 /\ (dr, dc) <> (0, 0))%Z /\
  exists y, shift x d = Some y /\ wf y /\
    tN y = tN x /\ tC y = tC x /\
    tH y = Nat.max (tH x) (Z.abs_nat dr) /\
    tW y = Nat.max (tW x) (Z.abs_nat dc) /\
    (1 <= tH x -> 1 <= tW x -> shape y = shape x) /\
    (forall n c h w, n < tN y -> c < tC y -> h < tH y -> w < tW y ->
       get y n c h w
       = if inside x (Z.of_nat h + dr) (Z.of_nat w + dc)
         then get x n c (Z.to_nat (Z.of_nat h + dr)) (Z.to_nat (Z.of_nat w + dc))
         else rO) /\
    (d = "up"%string ->
     forall n c w, n < tN y -> c < tC y -> w < tW y -> get y n c (tH y - 1) w = rO).
Proof.
  intros Wx E. split.
  - apply offset_of_inv in E.
    repeat destruct E as [E|E]; destruct E as [_ E]; injection E as -> ->;
      repeat split; try lia; discriminate.
  - destruct (shift_cells x d dr dc Wx E) as (y & Sy & Wy & SN & SC & SH & SW & G).
    exists y. repeat (split; [assumption|]). split; [|split; [exact G|]].
    + intros HH HW. unfold shape. rewrite SN, SC, SH, SW.
      apply offset_of_inv in E.
      repeat destruct E as [E|E]; destruct E as [_ E]; injection E as -> ->;
        repeat f_equal; lia.
    + intros -> n c w Hn Hc Hw. injection E as <- <-.
      change (Z.abs_nat 1) with 1 in SH.
      rewrite G by (trivial; lia).
      unfold neighbour, inside. bool_cases; trivial; lia.
Qed.

(** C4.  For every valid input of shape (N, C, H, W) with [C] the
    configured channel count, [forward] returns a tensor of exactly that
    shape. *)
Theorem forward_preserves_shape (c : Z) (w1 w2 w3 : nat -> nat -> nat -> nat -> R)
    (self : MDBEM R) (x : Tensor R) :
  MDBEM_init c w1 w2 w3 = Ok self ->
  Z.of_nat (tC x) = c -> 1 <= tH x -> 1 <= tW x ->
  exists y, forward self x = Ok y /\ wf y /\ shape y = shape x.
Proof.
  intros I Cx HH HW. exists (spec_apply self x).
  split; [now apply (forward_unfold c w1 w2 w3)|].
  split; [apply wf_tabulate | reflexivity].
Qed.

(** C5.  On an instance constructed with [in_channels = c], every input
    whose channel dimension differs from [c] makes [forward] raise (the
    library's [RuntimeError] for a shape mismatch) and return no output. *)
Theorem forward_rejects_channel_mismatch (c : Z) (w1 w2 w3 : nat -> nat -> nat -> nat -> R)
    (self : MDBEM R) (x : Tensor R) :
  MDBEM_init c w1 w2 w3 = Ok self ->
  Z.of_nat (tC x) <> c ->
  forward self x = Raise RuntimeError.
Proof. apply forward_channels. Qed.

(** C6.  Construction with an [in_channels] that is zero or negative raises
    ([ValueError] from the depthwise layer's group check for zero,
    [RuntimeError] from the allocation of a negative size otherwise);
    construction with a positive [C] succeeds with weights of shapes
    (C, C, 1, 1), (C, 1, 3, 3) and (C, C, 1, 1). *)
Theorem MDBEM_init_checks_in_channels (c : Z) (w1 w2 w3 : nat -> nat -> nat -> nat -> R) :
  ((c <= 0)%Z ->
     MDBEM_init c w1 w2 w3 = Raise (if (c =? 0)%Z then ValueError else RuntimeError)) /\
  ((0 < c)%Z ->
     exists self, MDBEM_init c w1 w2 w3 = Ok self /\
       shape (weight (conv self)) = (Z.to_nat c, Z.to_nat c, 1, 1) /\
       shape (weight (depthwise self)) = (Z.to_nat c, 1, 3, 3) /\
       shape (weight (pointwise self)) = (Z.to_nat c, Z.to_nat c, 1, 1) /\
       wf (weight (conv self)) /\ wf (weight (depthwise self)) /\
       wf (weight (pointwise self))).
Proof.
  split.
  - intros Le. destruct (Z.eqb_spec c 0) as [->|Ne].
    + apply MDBEM_init_zero.
    + apply MDBEM_init_neg. lia.
  - intros Pc. eexists. split; [now apply MDBEM_init_pos|].
    cbn [conv depthwise pointwise weight].
    repeat split; apply wf_tabulate.
Qed.

(** C10, as amended.  On a 4-D input, for a direction outside the eight
    labels [shift] falls through every branch and returns [None]; for each
    of the eight labels it always returns a tensor, with the batch and
    channel sizes of the input, height [max H |dr|] and width [max W |dc|]
    for the label's offset [(dr, dc)]: the input's shape whenever the input
    has at least one row and one column, and a one-cell axis in place of an
    empty axis that the label shifts.  The loop of [forward], which passes
    only the eight labels and a [feat] with at least one row and one column,
    never subtracts [None]. *)
Theorem shift_fall_through_and_shape (x : Tensor R) (d : string) :
  (~ In d directions -> shift x d = None) /\
  (In d directions ->
     exists dr dc y, offset_of d = Some (dr, dc) /\ shift x d = Some y /\
       tN y = tN x /\ tC y = tC x /\
       tH y = Nat.max (tH x) (Z.abs_nat dr) /\
       tW y = Nat.max (tW x) (Z.abs_nat dc) /\
       (wf x -> wf y) /\
       (1 <= tH x -> 1 <= tW x -> shape y = shape x)) /\
  (wf x -> 1 <= tH x -> 1 <= tW x ->
     exists dfs, direction_feats x directions = Ok dfs /\
       length dfs = 8 /\ Forall (fun t => shape t = shape x) dfs).
Proof.
  split; [apply shift_unknown|]. split.
  - intros I. apply offset_of_directions in I. destruct I as [[dr dc] E].
    destruct (shift_shape x d dr dc E) as (y & Sy & SN & SC & SH & SW & Wy).
    exists dr, dc, y. repeat (split; [assumption|]).
    intros HH HW. unfold shape. rewrite SN, SC, SH, SW.
    apply offset_of_inv in E.
    repeat destruct E as [E|E]; destruct E as [_ E]; injection E as -> ->;
      repeat f_equal; lia.
  - intros Wx HH HW. rewrite direction_feats_spec by assumption.
    eexists. split; [reflexivity|]. split; [reflexivity|].
    repeat constructor.
Qed.

End Claims.

Section ClaimsZero.

Context {R : Type} {SR : Scalar R} {SRing : ScalarRing R}.

Add Ring scalar_ring_claims_zero : scalar_ring.






(** C9.  For every valid input with H = 1 and W = 1, each of the eight
    shifted copies of [feat] is entirely zero, and [boundary_feat] is
    [8 * feat] at the single spatial position. *)
Theorem single_cell_boundary (c : Z) (w1 w2 w3 : nat -> nat -> nat -> nat -> R)
    (self : MDBEM R) (x : Tensor R) :
  MDBEM_init c w1 w2 w3 = Ok self ->
  Z.of_nat (tC x) = c -> tH x = 1 -> tW x = 1 ->
  exists feat, Conv2d_forward (conv self) x = Ok feat /\ shape feat = shape x /\
    (forall d, In d directions ->
       exists s, shift feat d = Some s /\ shape s = shape feat /\ all_zero s) /\
    exists b, boundary_feat feat = Ok b /\ shape b = shape feat /\
      forall n ch, n < tN feat -> ch < tC feat ->
        get b n ch 0 0 = times 8 (get feat n ch 0 0).
Proof.
  intros I Cx H1 W1. apply MDBEM_init_Ok in I. destruct I as [Pc ->].
  assert (Cn : Z.to_nat c = tC x) by lia. rewrite Cn.
  set (Wt := tabulate (tC x) (tC x) 1 1 w1).
  set (feat := spec_channel_mix Wt x).
  assert (Wf : wf feat) by apply wf_tabulate.
  assert (H1f : tH feat = 1) by exact H1.
  assert (W1f : tW feat = 1) by exact W1.
  exists feat. split; [|split; [|split]].
  - unfold Conv2d_forward. cbn [conv weight padding groups].
    apply conv2d_1x1; trivial; cbn [tN tabulate Wt]; lia.
  - reflexivity.
  - intros d I. apply offset_of_directions in I. destruct I as [[dr dc] E].
    exists (spec_shifted feat dr dc).
    split; [apply shift_spec; trivial; lia|]. split; [reflexivity|].
    apply all_zero_tabulate. intros n ch h w Hn Hc Hh Hw.
    unfold neighbour, inside. rewrite H1f, W1f.
    apply offset_of_inv in E.
    repeat destruct E as [E|E]; destruct E as [_ E]; injection E as -> ->;
      bool_cases; trivial; lia.
  - exists (spec_boundary_feat feat).
    split; [apply boundary_feat_spec; trivial; lia|]. split; [reflexivity|].
    intros n ch Hn Hc.
    rewrite (flat_boundary feat (fun n ch => get feat n ch 0 0)); try lia; trivial.
    + f_equal. unfold outside_count, inside. rewrite H1f, W1f. reflexivity.
    + intros n' c' h w _ _ Hh Hw.
      replace h with 0 by lia. replace w with 0 by lia. reflexivity.
Qed.

End ClaimsZero.

(** * The claims at concrete inputs *)

(** The border check of the specification on a 3x3 pattern with distinct
    entries: each shift fills its own edge or corner with zeros. *)
Example shift_pattern33 :
  option_map tdata (shift pattern33 "up")
    = Some [[[[11; 12; 13]; [21; 22; 23]; [0; 0; 0]]]]%Z /\
  option_map tdata (shift pattern33 "down")
    = Some [[[[0; 0; 0]; [1; 2; 3]; [11; 12; 13]]]]%Z /\
  option_map tdata (shift pattern33 "left")
    = Some [[[[2; 3; 0]; [12; 13; 0]; [22; 23; 0]]]]%Z /\
  option_map tdata (shift pattern33 "right")
    = Some [[[[0; 1; 2]; [0; 11; 12]; [0; 21; 22]]]]%Z /\
  option_map tdata (shift pattern33 "upleft")
    = Some [[[[12; 13; 0]; [22; 23; 0]; [0; 0; 0]]]]%Z /\
  option_map tdata (shift pattern33 "upright")
    = Some [[[[0; 11; 12]; [0; 21; 22]; [0; 0; 0]]]]%Z /\
  option_map tdata (shift pattern33 "downleft")
    = Some [[[[0; 0; 0]; [2; 3; 0]; [12; 13; 0]]]]%Z /\
  option_map tdata (shift pattern33 "downright")
    = Some [[[[0; 0; 0]; [0; 1; 2]; [0; 11; 12]]]]%Z.
Proof. repeat split. Qed.

(** The scenario of the specification: a single centre pixel, the identity
    as channel mix.  [boundary_feat] is 8 at the centre and -1 around it. *)
Example boundary_centre_pixel :
  Conv2d_forward (conv passthrough_module) centre_pixel = Ok centre_pixel /\
  boundary_feat centre_pixel
    = Ok (mkTensor 1 1 3 3 [[[[-1; -1; -1]; [-1; 8; -1]; [-1; -1; -1]]]]%Z).
Proof. split; reflexivity. Qed.


Lemma forward_refines_specification_witness :
  exists self, MDBEM_init 2 pattern4 pattern4 pattern4 = Ok self /\
    forward self pattern2ch = Ok (spec_apply self pattern2ch).
Proof.
  eexists. split; [reflexivity|].
  apply (forward_refines_specification 2 pattern4 pattern4 pattern4);
    [reflexivity | reflexivity | simpl; lia | simpl; lia].
Defined.

Lemma shift_reads_neighbour_or_zero_witness :
  wf pattern33 /\ offset_of "up" = Some (1, 0)%Z /\
  exists y, shift pattern33 "up" = Some y /\ shape y = shape pattern33 /\
    forall n c h w, n < tN y -> c < tC y -> h < tH y -> w < tW y ->
      get y n c h w
      = if inside pattern33 (Z.of_nat h + 1) (Z.of_nat w + 0)
        then get pattern33 n c (Z.to_nat (Z.of_nat h + 1)) (Z.to_nat (Z.of_nat w + 0))
        else 0%Z.
Proof.
  split; [apply wf_tabulate|]. split; [reflexivity|].
  destruct (shift_reads_neighbour_or_zero pattern33 "up" 1 0
              (wf_tabulate 1 1 3 3 pattern4) eq_refl)
    as (_ & y & Sy & _ & _ & _ & _ & _ & Sh & G & _).
  exists y. split; [exact Sy|]. split; [apply Sh; simpl; lia | exact G].
Defined.




Lemma forward_preserves_shape_witness :
  exists y, forward unit_module pattern33 = Ok y /\ wf y /\ shape y = shape pattern33.
Proof.
  apply (forward_preserves_shape 1 ones4 centre4 ones4);
    [reflexivity | reflexivity | simpl; lia | simpl; lia].
Defined.

Lemma forward_rejects_channel_mismatch_witness :
  exists self, MDBEM_init 8 ones4 centre4 ones4 = Ok self /\
    tC pattern4ch = 4 /\ forward self pattern4ch = Raise RuntimeError.
Proof.
  eexists. split; [reflexivity|]. split; [reflexivity|].
  apply (forward_rejects_channel_mismatch 8 ones4 centre4 ones4);
    [reflexivity | simpl; lia].
Defined.

Lemma MDBEM_init_checks_in_channels_witness :
  MDBEM_init 0 ones4 centre4 ones4 = Raise ValueError /\
  MDBEM_init (-3) ones4 centre4 ones4 = Raise RuntimeError /\
  exists self, MDBEM_init 5 ones4 centre4 ones4 = Ok self /\
    shape (weight (conv self)) = (5, 5, 1, 1) /\
    shape (weight (depthwise self)) = (5, 1, 3, 3) /\
    shape (weight (pointwise self)) = (5, 5, 1, 1).
Proof.
  split; [|split].
  - apply (proj1 (MDBEM_init_checks_in_channels 0 ones4 centre4 ones4)). lia.
  - apply (proj1 (MDBEM_init_checks_in_channels (-3) ones4 centre4 ones4)). lia.
  - destruct (proj2 (MDBEM_init_checks_in_channels 5 ones4 centre4 ones4))
      as (self & I & S1 & S2 & S3 & _); [lia|].
    exists self. repeat split; assumption.
Defined.


Lemma single_cell_boundary_witness :
  exists feat, Conv2d_forward (conv unit_module) ones11 = Ok feat /\
    shape feat = shape ones11 /\
    (forall d, In d directions ->
       exists s, shift feat d = Some s /\ shape s = shape feat /\ all_zero s) /\
    exists b, boundary_feat feat = Ok b /\ shape b = shape feat /\
      forall n ch, n < tN feat -> ch < tC feat ->
        get b n ch 0 0 = times 8 (get feat n ch 0 0).
Proof.
  apply (single_cell_boundary 1 ones4 centre4 ones4);
    [reflexivity | reflexivity | reflexivity | reflexivity].
Defined.

Lemma shift_fall_through_and_shape_witness :
  shift pattern33 "sideways" = None /\
  (exists dr dc y, offset_of "downleft" = Some (dr, dc) /\
     shift pattern33 "downleft" = Some y /\
     tN y = tN pattern33 /\ tC y = tC pattern33 /\
     tH y = Nat.max (tH pattern33) (Z.abs_nat dr) /\
     tW y = Nat.max (tW pattern33) (Z.abs_nat dc) /\
     (wf pattern33 -> wf y) /\
     (1 <= tH pattern33 -> 1 <= tW pattern33 -> shape y = shape pattern33)) /\
  exists dfs, direction_feats pattern33 directions = Ok dfs /\
    length dfs = 8 /\ Forall (fun t => shape t = shape pattern33) dfs.
Proof.
  split; [|split].
  - apply (proj1 (shift_fall_through_and_shape pattern33 "sideways")).
    simpl. intuition discriminate.
  - apply (proj1 (proj2 (shift_fall_through_and_shape pattern33 "downleft"))).
    simpl; tauto.
  - apply (proj2 (proj2 (shift_fall_through_and_shape pattern33 "up")));
      [apply wf_tabulate | simpl; lia | simpl; lia].
Defined.

(** C10, the claim as stated, fails: on an input with no rows the "up"
    shift, slicing an empty axis and padding one row, returns a tensor with
    one row. *)
Lemma shift_no_rows_changes_shape :
  In "up"%string directions /\ wf no_rows /\ shape no_rows = (1, 1, 0, 3) /\
  exists y, shift no_rows "up" = Some y /\ shape y = (1, 1, 1, 3) /\
    shape y <> shape no_rows.
Proof.
  split; [simpl; tauto|]. split; [apply wf_tabulate|]. split; [reflexivity|].
  eexists. split; [reflexivity|]. split; [reflexivity | discriminate].
Qed.


(** * Further properties of the code *)

(** ** How the shifts compose *)

Ltac cell_cases :=
  unfold neighbour, inside; cbn [tN tC tH tW tabulate spec_shifted];
  bool_cases; trivial; try lia; try (f_equal; lia).

Section ShiftCompose.

Context {R : Type} {SR : Scalar R}.

Lemma get_spec_shifted (x : Tensor R) (a b : Z) (n c h w : nat) :
  n < tN x -> c < tC x -> h < tH x -> w < tW x ->
  get (spec_shifted x a b) n c h w = neighbour x n c h w a b.
Proof. intros. unfold spec_shifted. now rewrite get_tabulate. Qed.

(** Reading a shifted map through a second offset. *)
Lemma neighbour_spec_shifted (x : Tensor R) (a b a' b' : Z) (n c h w : nat) :
  n < tN x -> c < tC x ->
  neighbour (spec_shifted x a b) n c h w a' b'
  = if inside x (Z.of_nat h + a') (Z.of_nat w + b')
    then neighbour x n c (Z.to_nat (Z.of_nat h + a')) (Z.to_nat (Z.of_nat w + b')) a b
    else rO.
Proof.
  intros Hn Hc. unfold neighbour at 1.
  change (inside (spec_shifted x a b)) with (inside x).
  destruct (inside x _ _) eqn:I; [|reflexivity].
  apply inside_bounds in I. now rewrite get_spec_shifted.
Qed.

(** A shift along the rows and a shift along the columns, in either
    order, make the diagonal shift. *)
Lemma spec_shifted_row_col (x : Tensor R) (a b : Z) :
  spec_shifted (spec_shifted x a 0) 0 b = spec_shifted x a b /\
  spec_shifted (spec_shifted x 0 b) a 0 = spec_shifted x a b.
Proof.
  split; apply tabulate_ext; intros n c h w Hn Hc Hh Hw;
    cbn [tN tC tH tW tabulate spec_shifted] in *;
    rewrite neighbour_spec_shifted by assumption; cell_cases.
Qed.

(** A shift and then the opposite shift. *)
Lemma spec_shifted_back (x : Tensor R) (a b : Z) (n c h w : nat) :
  n < tN x -> c < tC x -> h < tH x -> w < tW x ->
  get (spec_shifted (spec_shifted x a b) (- a) (- b)) n c h w
  = if inside x (Z.of_nat h - a) (Z.of_nat w - b) then get x n c h w else rO.
Proof.
  intros Hn Hc Hh Hw.
  rewrite get_spec_shifted by assumption.
  rewrite neighbour_spec_shifted by assumption. cell_cases.
Qed.

End ShiftCompose.

Section ShiftCompositionTheorems.

Context {R : Type} {SR : Scalar R}.

(** X1.  A diagonal shift is the shift along the rows followed by the shift
    along the columns, and also the other way round: "upleft" is "up" then
    "left" and "left" then "up", and so for the three other diagonals. *)
Theorem shift_diagonal_composes (x : Tensor R) (dv dh dd : string) (dr dc : Z) :
  wf x -> 1 <= tH x -> 1 <= tW x ->
  offset_of dv = Some (dr, 0%Z) -> offset_of dh = Some (0%Z, dc) ->
  offset_of dd = Some (dr, dc) ->
  exists z, shift x dd = Some z /\
    (exists y, shift x dv = Some y /\ shift y dh = Some z) /\
    (exists y, shift x dh = Some y /\ shift y dv = Some z).
Proof.
  intros Wx HH HW Ev Eh Ed.
  exists (spec_shifted x dr dc). split; [now apply shift_spec|]. split.
  - exists (spec_shifted x dr 0). split; [now apply shift_spec|].
    rewrite (shift_spec _ dh 0 dc) by (trivial; apply wf_tabulate).
    f_equal. exact (proj1 (spec_shifted_row_col x dr dc)).
  - exists (spec_shifted x 0 dc). split; [now apply shift_spec|].
    rewrite (shift_spec _ dv dr 0) by (trivial; apply wf_tabulate).
    f_equal. exact (proj2 (spec_shifted_row_col x dr dc)).
Qed.

(** X2.  A shift followed by the opposite shift does not give the input
    back: it restores every cell whose neighbour against the first
    direction lies inside the grid and leaves zero in the others, the row
    or column (or both) that the first shift pushed out.  After "up" then
    "down" the first row is zero. *)
Theorem shift_then_opposite (x : Tensor R) (d d' : string) (dr dc : Z) :
  wf x -> 1 <= tH x -> 1 <= tW x ->
  offset_of d = Some (dr, dc) -> offset_of d' = Some (- dr, - dc)%Z ->
  exists y z, shift x d = Some y /\ shift y d' = Some z /\
    wf z /\ shape z = shape x /\
    forall n c h w, n < tN x -> c < tC x -> h < tH x -> w < tW x ->
      get z n c h w
      = if inside x (Z.of_nat h - dr) (Z.of_nat w - dc) then get x n c h w else rO.
Proof.
  intros Wx HH HW E E'.
  exists (spec_shifted x dr dc), (spec_shifted (spec_shifted x dr dc) (- dr) (- dc)).
  split; [now apply shift_spec|].
  split; [apply shift_spec; trivial; apply wf_tabulate|].
  split; [apply wf_tabulate|]. split; [reflexivity|].
  intros n c h w Hn Hc Hh Hw. now apply spec_shifted_back.
Qed.

End ShiftCompositionTheorems.

Lemma shift_diagonal_composes_witness :
  exists z, shift pattern33 "downleft" = Some z /\
    (exists y, shift pattern33 "down" = Some y /\ shift y "left" = Some z) /\
    (exists y, shift pattern33 "left" = Some y /\ shift y "down" = Some z).
Proof.
  apply (shift_diagonal_composes pattern33 "down" "left" "downleft" (-1) 1);
    [apply wf_tabulate | simpl; lia | simpl; lia
    | reflexivity | reflexivity | reflexivity].
Defined.

Lemma shift_then_opposite_witness :
  exists y z, shift pattern33 "up" = Some y /\ shift y "down" = Some z /\
    wf z /\ shape z = shape pattern33 /\
    forall n c h w, n < tN pattern33 -> c < tC pattern33 ->
      h < tH pattern33 -> w < tW pattern33 ->
      get z n c h w
      = if inside pattern33 (Z.of_nat h - 1) (Z.of_nat w - 0)
        then get pattern33 n c h w else 0%Z.
Proof.
  refine (shift_then_opposite pattern33 "up" "down" 1 0 _ _ _ _ _);
    [apply wf_tabulate | simpl; lia | simpl; lia | reflexivity | reflexivity].
Defined.

(** "up" then "down" on the 3x3 pattern: the first row is lost. *)
Example shift_up_down_pattern33 :
  option_map tdata
    (match shift pattern33 "up" with Some y => shift y "down" | None => None end)
  = Some [[[[0; 0; 0]; [11; 12; 13]; [21; 22; 23]]]]%Z.
Proof. reflexivity. Qed.

(** ** Linearity *)

Ltac same_shape :=
  unfold shape in *;
  cbn [tN tC tH tW tabulate tensor_add tensor_scale spec_channel_mix spec_pointwise
         spec_boundary_feat spec_depthwise spec_shifted] in *;
  congruence.

Section Linearity.

Context {R : Type} {SR : Scalar R} {SRing : ScalarRing R}.

Add Ring scalar_ring_linear : scalar_ring.

Lemma rsum_map_add {A : Type} (f g : A -> R) (l : list A) :
  rsum (map (fun k => radd (f k) (g k)) l) = radd (rsum (map f l)) (rsum (map g l)).
Proof. induction l as [|a l IH]; simpl; [ring | rewrite IH; ring]. Qed.

Lemma rsum_map_scale {A : Type} (k : R) (f : A -> R) (l : list A) :
  rsum (map (fun a => rmul k (f a)) l) = rmul k (rsum (map f l)).
Proof. induction l as [|a l IH]; simpl; [ring | rewrite IH; ring]. Qed.

Lemma get_tensor_add (a b : Tensor R) (n c h w : nat) :
  n < tN a -> c < tC a -> h < tH a -> w < tW a ->
  get (tensor_add a b) n c h w = radd (get a n c h w) (get b n c h w).
Proof. intros. unfold tensor_add. now rewrite get_tabulate. Qed.

Lemma get_tensor_scale (k : R) (a : Tensor R) (n c h w : nat) :
  n < tN a -> c < tC a -> h < tH a -> w < tW a ->
  get (tensor_scale k a) n c h w = rmul k (get a n c h w).
Proof. intros. unfold tensor_scale. now rewrite get_tabulate. Qed.

Lemma neighbour_tensor_add (a b : Tensor R) (n c h w : nat) (dr dc : Z) :
  shape b = shape a -> n < tN a -> c < tC a ->
  neighbour (tensor_add a b) n c h w dr dc
  = radd (neighbour a n c h w dr dc) (neighbour b n c h w dr dc).
Proof.
  intros S Hn Hc. unfold neighbour.
  change (inside (tensor_add a b)) with (inside a).
  replace (inside b) with (inside a)
    by (unfold inside, shape in *; injection S as _ _ -> ->; reflexivity).
  destruct (inside a _ _) eqn:I; [|ring].
  apply inside_bounds in I. now rewrite get_tensor_add.
Qed.

Lemma neighbour_tensor_scale (k : R) (a : Tensor R) (n c h w : nat) (dr dc : Z) :
  n < tN a -> c < tC a ->
  neighbour (tensor_scale k a) n c h w dr dc = rmul k (neighbour a n c h w dr dc).
Proof.
  intros Hn Hc. unfold neighbour.
  change (inside (tensor_scale k a)) with (inside a).
  destruct (inside a _ _) eqn:I; [|ring].
  apply inside_bounds in I. now rewrite get_tensor_scale.
Qed.

Lemma spec_shifted_add (a b : Tensor R) (dr dc : Z) :
  shape b = shape a ->
  spec_shifted (tensor_add a b) dr dc
  = tensor_add (spec_shifted a dr dc) (spec_shifted b dr dc).
Proof.
  intros S. apply tabulate_ext. intros n c h w Hn Hc Hh Hw.
  cbn [tN tC tH tW tabulate tensor_add spec_shifted] in *.
  rewrite neighbour_tensor_add by assumption.
  rewrite !get_spec_shifted; trivial; unfold shape in S; injection S; lia.
Qed.

Lemma spec_channel_mix_add (Wt a b : Tensor R) :
  shape b = shape a ->
  spec_channel_mix Wt (tensor_add a b)
  = tensor_add (spec_channel_mix Wt a) (spec_channel_mix Wt b).
Proof.
  intros S. apply tabulate_ext. intros n c h w Hn Hc Hh Hw.
  cbn [tN tC tH tW tabulate tensor_add spec_channel_mix] in *.
  unfold shape in S. injection S as SN SC SH SW.
  unfold spec_channel_mix. rewrite !get_tabulate by lia.
  rewrite SC, <- rsum_map_add.
  apply rsum_map_ext. intros k Hk. apply in_seq in Hk.
  rewrite get_tensor_add by (trivial; lia). ring.
Qed.

Lemma spec_channel_mix_scale (Wt : Tensor R) (k : R) (a : Tensor R) :
  spec_channel_mix Wt (tensor_scale k a) = tensor_scale k (spec_channel_mix Wt a).
Proof.
  apply tabulate_ext. intros n c h w Hn Hc Hh Hw.
  cbn [tN tC tH tW tabulate tensor_scale spec_channel_mix] in *.
  unfold spec_channel_mix. rewrite !get_tabulate by assumption.
  rewrite <- rsum_map_scale.
  apply rsum_map_ext. intros j Hj. apply in_seq in Hj.
  rewrite get_tensor_scale by (trivial; lia). ring.
Qed.

Lemma spec_boundary_feat_add (a b : Tensor R) :
  shape b = shape a ->
  spec_boundary_feat (tensor_add a b)
  = tensor_add (spec_boundary_feat a) (spec_boundary_feat b).
Proof.
  intros S. apply tabulate_ext. intros n c h w Hn Hc Hh Hw.
  cbn [tN tC tH tW tabulate tensor_add spec_boundary_feat] in *.
  pose proof S as S'. unfold shape in S'. injection S' as SN SC SH SW.
  unfold spec_boundary_feat. rewrite !get_tabulate by lia.
  rewrite <- rsum_map_add.
  apply rsum_map_ext. intros o _.
  rewrite get_tensor_add, neighbour_tensor_add by assumption. ring.
Qed.

Lemma spec_boundary_feat_scale (k : R) (a : Tensor R) :
  spec_boundary_feat (tensor_scale k a) = tensor_scale k (spec_boundary_feat a).
Proof.
  apply tabulate_ext. intros n c h w Hn Hc Hh Hw.
  cbn [tN tC tH tW tabulate tensor_scale spec_boundary_feat] in *.
  unfold spec_boundary_feat. rewrite !get_tabulate by assumption.
  rewrite <- rsum_map_scale.
  apply rsum_map_ext. intros o _.
  rewrite get_tensor_scale, neighbour_tensor_scale by assumption. ring.
Qed.

Lemma spec_depthwise_add (Wt a b : Tensor R) :
  shape b = shape a ->
  spec_depthwise Wt (tensor_add a b)
  = tensor_add (spec_depthwise Wt a) (spec_depthwise Wt b).
Proof.
  intros S. apply tabulate_ext. intros n c h w Hn Hc Hh Hw.
  cbn [tN tC tH tW tabulate tensor_add spec_depthwise] in *.
  pose proof S as S'. unfold shape in S'. injection S' as SN SC SH SW.
  unfold spec_depthwise. rewrite !get_tabulate by lia.
  rewrite <- rsum_map_add.
  apply rsum_map_ext. intros i _. rewrite <- rsum_map_add.
  apply rsum_map_ext. intros j _.
  rewrite neighbour_tensor_add by assumption. ring.
Qed.

Lemma spec_depthwise_scale (Wt : Tensor R) (k : R) (a : Tensor R) :
  spec_depthwise Wt (tensor_scale k a) = tensor_scale k (spec_depthwise Wt a).
Proof.
  apply tabulate_ext. intros n c h w Hn Hc Hh Hw.
  cbn [tN tC tH tW tabulate tensor_scale spec_depthwise] in *.
  unfold spec_depthwise. rewrite !get_tabulate by assumption.
  rewrite <- rsum_map_scale.
  apply rsum_map_ext. intros i _. rewrite <- rsum_map_scale.
  apply rsum_map_ext. intros j _.
  rewrite neighbour_tensor_scale by assumption. ring.
Qed.

Lemma spec_apply_add (self : MDBEM R) (x y : Tensor R) :
  shape y = shape x ->
  spec_apply self (tensor_add x y) = tensor_add (spec_apply self x) (spec_apply self y).
Proof.
  intros S. unfold spec_apply, spec_pointwise.
  rewrite spec_channel_mix_add, spec_boundary_feat_add, spec_depthwise_add,
    spec_channel_mix_add by same_shape.
  apply tabulate_ext. intros n c h w Hn Hc Hh Hw.
  cbn [tN tC tH tW tabulate tensor_add] in *.
  pose proof S as S'. unfold shape in S'. injection S' as SN SC SH SW.
  rewrite !get_tabulate by lia.
  rewrite (get_tensor_add x y) by assumption.
  destruct (Nat.lt_ge_cases c (tN (weight (pointwise self)))) as [Hp|Hp].
  - rewrite get_tensor_add by assumption. ring.
  - rewrite !(get_outside (spec_channel_mix _ _)); try apply wf_tabulate;
      try (cbn [tN tC tH tW tabulate spec_channel_mix tensor_add]; lia).
    rewrite (get_outside (tensor_add _ _)); try apply wf_tabulate;
      try (cbn [tN tC tH tW tabulate spec_channel_mix tensor_add]; lia).
    ring.
Qed.

Lemma spec_apply_scale (self : MDBEM R) (k : R) (x : Tensor R) :
  spec_apply self (tensor_scale k x) = tensor_scale k (spec_apply self x).
Proof.
  unfold spec_apply, spec_pointwise.
  rewrite spec_channel_mix_scale, spec_boundary_feat_scale, spec_depthwise_scale,
    spec_channel_mix_scale.
  apply tabulate_ext. intros n c h w Hn Hc Hh Hw.
  cbn [tN tC tH tW tabulate tensor_scale] in *.
  rewrite !get_tabulate by assumption.
  rewrite (get_tensor_scale k x) by assumption.
  destruct (Nat.lt_ge_cases c (tN (weight (pointwise self)))) as [Hp|Hp].
  - rewrite get_tensor_scale by assumption. ring.
  - rewrite !(get_outside (spec_channel_mix _ _)); try apply wf_tabulate;
      try (cbn [tN tC tH tW tabulate spec_channel_mix tensor_scale]; lia).
    rewrite (get_outside (tensor_scale _ _)); try apply wf_tabulate;
      try (cbn [tN tC tH tW tabulate spec_channel_mix tensor_scale]; lia).
    ring.
Qed.

End Linearity.

Section LinearityTheorems.

Context {R : Type} {SR : Scalar R} {SRing : ScalarRing R}.

Add Ring scalar_ring_linear_thm : scalar_ring.

(** X3.  [shift] is additive: the shift of a sum of two maps of one shape
    is the sum of their shifts. *)
Theorem shift_additive (a b : Tensor R) (d : string) (dr dc : Z) :
  wf a -> wf b -> shape b = shape a -> 1 <= tH a -> 1 <= tW a ->
  offset_of d = Some (dr, dc) ->
  exists sa sb, shift a d = Some sa /\ shift b d = Some sb /\
    tadd a b = Ok (tensor_add a b) /\ tadd sa sb = Ok (tensor_add sa sb) /\
    shift (tensor_add a b) d = Some (tensor_add sa sb).
Proof.
  intros Wa Wb S HH HW E.
  pose proof S as S'. unfold shape in S'. injection S' as SN SC SH SW.
  exists (spec_shifted a dr dc), (spec_shifted b dr dc).
  split; [now apply shift_spec|].
  split; [apply shift_spec; trivial; lia|].
  split; [unfold tadd; now rewrite binop_same_shape|].
  split; [unfold tadd; rewrite binop_same_shape by same_shape; reflexivity|].
  rewrite (shift_spec _ d dr dc) by (trivial; apply wf_tabulate).
  f_equal. now apply spec_shifted_add.
Qed.

(** X4.  [forward] is additive: on two valid inputs of one shape, the
    output for their sum is the sum of their outputs. *)
Theorem forward_additive (c : Z) (w1 w2 w3 : nat -> nat -> nat -> nat -> R)
    (self : MDBEM R) (x y : Tensor R) :
  MDBEM_init c w1 w2 w3 = Ok self ->
  shape y = shape x -> Z.of_nat (tC x) = c -> 1 <= tH x -> 1 <= tW x ->
  exists fx fy, forward self x = Ok fx /\ forward self y = Ok fy /\
    tadd x y = Ok (tensor_add x y) /\ tadd fx fy = Ok (tensor_add fx fy) /\
    forward self (tensor_add x y) = Ok (tensor_add fx fy).
Proof.
  intros I S Cx HH HW.
  pose proof S as S'. unfold shape in S'. injection S' as SN SC SH SW.
  exists (spec_apply self x), (spec_apply self y).
  split; [now apply (forward_unfold c w1 w2 w3)|].
  split; [apply (forward_unfold c w1 w2 w3); trivial; lia|].
  split; [unfold tadd; now rewrite binop_same_shape|].
  split; [unfold tadd; rewrite binop_same_shape by (unfold spec_apply; same_shape);
          reflexivity|].
  rewrite (forward_unfold c w1 w2 w3) by assumption.
  f_equal. now apply spec_apply_add.
Qed.

(** X5.  [forward] is homogeneous: scaling a valid input by a number
    scales the output by that number. *)
Theorem forward_homogeneous (c : Z) (w1 w2 w3 : nat -> nat -> nat -> nat -> R)
    (self : MDBEM R) (k : R) (x : Tensor R) :
  MDBEM_init c w1 w2 w3 = Ok self ->
  Z.of_nat (tC x) = c -> 1 <= tH x -> 1 <= tW x ->
  exists fx, forward self x = Ok fx /\
    forward self (tensor_scale k x) = Ok (tensor_scale k fx).
Proof.
  intros I Cx HH HW. exists (spec_apply self x).
  split; [now apply (forward_unfold c w1 w2 w3)|].
  rewrite (forward_unfold c w1 w2 w3) by assumption.
  f_equal. apply spec_apply_scale.
Qed.


(** X7.  In exact arithmetic (scalars that form a commutative ring), when
    any one of the three weight tensors is all-zero, the refinement
    vanishes and [forward] returns a valid input unchanged. *)
Theorem forward_zero_weight_identity (c : Z) (w1 w2 w3 : nat -> nat -> nat -> nat -> R)
    (self : MDBEM R) (x : Tensor R) :
  MDBEM_init c w1 w2 w3 = Ok self ->
  all_zero (weight (conv self)) \/ all_zero (weight (depthwise self))
    \/ all_zero (weight (pointwise self)) ->
  wf x -> Z.of_nat (tC x) = c -> 1 <= tH x -> 1 <= tW x ->
  forward self x = Ok x.
Proof.
  intros I Zw Wx Cx HH HW.
  rewrite (forward_unfold c w1 w2 w3) by assumption.
  apply MDBEM_init_Ok in I. destruct I as [Pc ->].
  assert (Cn : Z.to_nat c = tC x) by lia. rewrite Cn in *.
  cbn [conv depthwise pointwise weight] in Zw.
  f_equal. unfold spec_apply. cbn [conv depthwise pointwise weight].
  apply tabulate_add_zero; [assumption | reflexivity |].
  destruct Zw as [Z1|[Z2|Z3]].
  - apply spec_channel_mix_zero_input, spec_depthwise_zero_input,
      spec_boundary_feat_zero.
    apply spec_channel_mix_zero_weight; trivial; cbn [tC tH tW tabulate]; lia.
  - apply spec_channel_mix_zero_input.
    apply all_zero_tabulate. intros n ch h w Hn Hc Hh Hw.
    cbn [tN tC tH tW tabulate spec_boundary_feat spec_channel_mix] in *.
    apply rsum_map_zero. intros i Hi. apply rsum_map_zero. intros j Hj.
    rewrite Z2; [ring | | | |]; cbn [tN tC tH tW tabulate]; try lia.
    + simpl in Hi. lia.
    + simpl in Hj. lia.
  - apply spec_channel_mix_zero_weight; trivial;
      cbn [tN tC tH tW tabulate spec_depthwise spec_boundary_feat spec_channel_mix]; lia.
Qed.

(** X8.  On a 4-D input, [forward] fails exactly when the channel count is
    not the configured one or a spatial axis is empty, and then with the
    library's [RuntimeError]; every other 4-D input, one with an empty
    batch included, is accepted.  (Inputs of another rank are outside the
    model: [Tensor] is 4-D.) *)
Theorem forward_failure_exact (c : Z) (w1 w2 w3 : nat -> nat -> nat -> nat -> R)
    (self : MDBEM R) (x : Tensor R) (e : exn) :
  MDBEM_init c w1 w2 w3 = Ok self ->
  (forward self x = Raise e <->
   e = RuntimeError /\ (Z.of_nat (tC x) <> c \/ tH x = 0 \/ tW x = 0)).
Proof.
  intros I. split.
  - intros F.
    destruct (Z.eq_dec (Z.of_nat (tC x)) c) as [Cx|Cx].
    2:{ rewrite (forward_channels c w1 w2 w3) in F by assumption.
        injection F as <-. tauto. }
    destruct (Nat.eq_dec (tH x) 0) as [H0|H0].
    { rewrite (forward_empty_axis c w1 w2 w3) in F by tauto.
      injection F as <-. tauto. }
    destruct (Nat.eq_dec (tW x) 0) as [W0|W0].
    { rewrite (forward_empty_axis c w1 w2 w3) in F by tauto.
      injection F as <-. tauto. }
    rewrite (forward_unfold c w1 w2 w3) in F by (trivial; lia). discriminate.
  - intros [-> [Cx|E]].
    + now apply (forward_channels c w1 w2 w3).
    + now apply (forward_empty_axis c w1 w2 w3).
Qed.

End LinearityTheorems.

(** ** The boundary stage as one convolution *)

Section Stencil.

Context {R : Type} {SR : Scalar R} {SRing : ScalarRing R}.

Add Ring scalar_ring_stencil : scalar_ring.



End Stencil.

(** ** The receptive field *)

Section Locality.

Context {R : Type} {SR : Scalar R}.

Lemma neighbour_agree (a b : Tensor R) (r n k h w h' w' : nat) (dr dc : Z) :
  shape b = shape a -> agree_near (S r) a b n h w ->
  k < tC a -> h' < tH a -> w' < tW a ->
  h' <= h + r -> h <= h' + r -> w' <= w + r -> w <= w' + r ->
  (-1 <= dr <= 1)%Z -> (-1 <= dc <= 1)%Z ->
  neighbour a n k h' w' dr dc = neighbour b n k h' w' dr dc.
Proof.
  intros S Ag Hk Hh Hw B1 B2 B3 B4 Dr Dc. unfold neighbour.
  replace (inside b) with (inside a)
    by (unfold inside, shape in *; injection S as _ _ -> ->; reflexivity).
  destruct (inside a _ _) eqn:I; [|reflexivity].
  apply inside_bounds in I. apply Ag; lia.
Qed.

Lemma channel_mix_agree (Wt x x' : Tensor R) (r n h w : nat) :
  shape x' = shape x -> n < tN x -> agree_near r x x' n h w ->
  agree_near r (spec_channel_mix Wt x) (spec_channel_mix Wt x') n h w.
Proof.
  intros S Hn Ag k h' w' Hk Hh Hw B1 B2 B3 B4.
  cbn [tN tC tH tW tabulate spec_channel_mix] in *.
  unfold shape in S. injection S as SN SC SH SW.
  unfold spec_channel_mix. rewrite !get_tabulate by lia.
  rewrite SC. apply rsum_map_ext. intros j Hj. apply in_seq in Hj.
  rewrite Ag by (trivial; lia). reflexivity.
Qed.

Lemma boundary_agree (a b : Tensor R) (r n h w : nat) :
  shape b = shape a -> n < tN a -> agree_near (S r) a b n h w ->
  agree_near r (spec_boundary_feat a) (spec_boundary_feat b) n h w.
Proof.
  intros S Hn Ag k h' w' Hk Hh Hw B1 B2 B3 B4.
  cbn [tN tC tH tW tabulate spec_boundary_feat] in *.
  pose proof S as S'. unfold shape in S'. injection S' as SN SC SH SW.
  unfold spec_boundary_feat. rewrite !get_tabulate by lia.
  apply rsum_map_ext. intros o Ho.
  rewrite (Ag k h' w') by (trivial; lia).
  rewrite (neighbour_agree a b r n k h w h' w'); trivial;
    unfold offsets8 in Ho; simpl in Ho;
    repeat (destruct Ho as [<-|Ho]; [simpl; lia|]); contradiction.
Qed.

Lemma depthwise_agree (Wt a b : Tensor R) (r n h w : nat) :
  shape b = shape a -> n < tN a -> agree_near (S r) a b n h w ->
  agree_near r (spec_depthwise Wt a) (spec_depthwise Wt b) n h w.
Proof.
  intros S Hn Ag k h' w' Hk Hh Hw B1 B2 B3 B4.
  cbn [tN tC tH tW tabulate spec_depthwise] in *.
  pose proof S as S'. unfold shape in S'. injection S' as SN SC SH SW.
  unfold spec_depthwise. rewrite !get_tabulate by lia.
  apply rsum_map_ext. intros i Hi. apply rsum_map_ext. intros j Hj.
  rewrite (neighbour_agree a b r n k h w h' w'); trivial;
    simpl in Hi, Hj; lia.
Qed.

End Locality.

Section LocalityTheorem.

Context {R : Type} {SR : Scalar R} {SRing : ScalarRing R}.

(** X10.  The receptive field of [forward] is 5x5 and confined to one item
    of the batch: the output at position [(h, w)] of item [n] depends only
    on the input values of item [n] at most two cells away from [(h, w)]
    on each axis.  Two valid inputs of one shape that agree there give
    outputs that agree at [(h, w)] of item [n] in every channel. *)
Theorem forward_receptive_field (c : Z) (w1 w2 w3 : nat -> nat -> nat -> nat -> R)
    (self : MDBEM R) (x x' : Tensor R) (n h w : nat) :
  MDBEM_init c w1 w2 w3 = Ok self ->
  shape x' = shape x -> Z.of_nat (tC x) = c ->
  n < tN x -> h < tH x -> w < tW x ->
  agree_near 2 x x' n h w ->
  exists y y', forward self x = Ok y /\ forward self x' = Ok y' /\
    forall ch, ch < tC x -> get y n ch h w = get y' n ch h w.
Proof.
  intros I S Cx Hn Hh Hw Ag.
  pose proof S as S'. unfold shape in S'. injection S' as SN SC SH SW.
  exists (spec_apply self x), (spec_apply self x').
  split; [apply (forward_unfold c w1 w2 w3); trivial; lia|].
  split; [apply (forward_unfold c w1 w2 w3); trivial; lia|].
  apply MDBEM_init_Ok in I. destruct I as [Pc ->].
  assert (Cn : Z.to_nat c = tC x) by lia. rewrite Cn.
  intros ch Hc. unfold spec_apply, spec_pointwise.
  cbn [conv depthwise pointwise weight].
  rewrite !get_tabulate by lia.
  rewrite (Ag ch h w) by (trivial; lia). f_equal.
  set (W1 := tabulate (tC x) (tC x) 1 1 w1).
  set (W2 := tabulate (tC x) 1 3 3 w2).
  set (W3 := tabulate (tC x) (tC x) 1 1 w3).
  assert (A2 : agree_near 2 (spec_channel_mix W1 x) (spec_channel_mix W1 x') n h w)
    by now apply channel_mix_agree.
  assert (A1 : agree_near 1 (spec_boundary_feat (spec_channel_mix W1 x))
                 (spec_boundary_feat (spec_channel_mix W1 x')) n h w)
    by (apply boundary_agree; [same_shape | exact Hn | exact A2]).
  assert (A0 : agree_near 0
                 (spec_depthwise W2 (spec_boundary_feat (spec_channel_mix W1 x)))
                 (spec_depthwise W2 (spec_boundary_feat (spec_channel_mix W1 x'))) n h w)
    by (apply depthwise_agree; [same_shape | exact Hn | exact A1]).
  apply (channel_mix_agree W3 _ _ 0 n h w) in A0; [|same_shape | exact Hn].
  apply A0; cbn [tN tC tH tW tabulate spec_depthwise spec_boundary_feat
                   spec_channel_mix W3]; lia.
Qed.

End LocalityTheorem.

(** ** The further properties at concrete inputs *)

Lemma shift_additive_witness :
  exists sa sb, shift pattern33 "upright" = Some sa /\ shift squares33 "upright" = Some sb /\
    tadd pattern33 squares33 = Ok (tensor_add pattern33 squares33) /\
    tadd sa sb = Ok (tensor_add sa sb) /\
    shift (tensor_add pattern33 squares33) "upright" = Some (tensor_add sa sb).
Proof.
  refine (shift_additive pattern33 squares33 "upright" 1 (-1) _ _ _ _ _ _);
    [apply wf_tabulate | apply wf_tabulate | reflexivity
    | simpl; lia | simpl; lia | reflexivity].
Defined.

Lemma forward_additive_witness :
  exists fx fy, forward unit_module pattern33 = Ok fx /\
    forward unit_module squares33 = Ok fy /\
    tadd pattern33 squares33 = Ok (tensor_add pattern33 squares33) /\
    tadd fx fy = Ok (tensor_add fx fy) /\
    forward unit_module (tensor_add pattern33 squares33) = Ok (tensor_add fx fy).
Proof.
  refine (forward_additive 1 ones4 centre4 ones4 unit_module pattern33 squares33
            _ _ _ _ _);
    [reflexivity | reflexivity | reflexivity | simpl; lia | simpl; lia].
Defined.

Lemma forward_homogeneous_witness :
  exists fx, forward unit_module pattern33 = Ok fx /\
    forward unit_module (tensor_scale 3%Z pattern33) = Ok (tensor_scale 3%Z fx).
Proof.
  refine (forward_homogeneous 1 ones4 centre4 ones4 unit_module 3%Z pattern33 _ _ _ _);
    [reflexivity | reflexivity | simpl; lia | simpl; lia].
Defined.


Lemma forward_zero_weight_identity_witness :
  MDBEM_init 1 zeros4 centre4 ones4 = Ok blind_module /\
  forward blind_module pattern33 = Ok pattern33.
Proof.
  split; [reflexivity|].
  refine (forward_zero_weight_identity 1 zeros4 centre4 ones4 blind_module pattern33
            _ _ _ _ _ _);
    [reflexivity | left; apply all_zero_tabulate; reflexivity | apply wf_tabulate
    | reflexivity | simpl; lia | simpl; lia].
Defined.

Lemma forward_failure_exact_witness :
  tH no_rows = 0 /\ forward unit_module no_rows = Raise RuntimeError.
Proof.
  split; [reflexivity|].
  apply (proj2 (forward_failure_exact 1 ones4 centre4 ones4 unit_module no_rows
                  RuntimeError eq_refl)).
  split; [reflexivity | right; left; reflexivity].
Defined.


Lemma pattern44_agree : agree_near 2 pattern44 pattern44_corner 0 3 3.
Proof.
  intros k h' w' Hk Hh Hw B1 B2 B3 B4.
  unfold pattern44, pattern44_corner. rewrite !get_tabulate by (trivial; lia).
  destruct h' as [|h']; [lia | reflexivity].
Qed.

Lemma forward_receptive_field_witness :
  agree_near 2 pattern44 pattern44_corner 0 3 3 /\
  exists y y', forward unit_module pattern44 = Ok y /\
    forward unit_module pattern44_corner = Ok y' /\
    forall ch, ch < tC pattern44 -> get y 0 ch 3 3 = get y' 0 ch 3 3.
Proof.
  split; [exact pattern44_agree|].
  refine (forward_receptive_field 1 ones4 centre4 ones4 unit_module
            pattern44 pattern44_corner 0 3 3 _ _ _ _ _ _ pattern44_agree);
    [reflexivity | reflexivity | reflexivity | simpl; lia | simpl; lia | simpl; lia].
Defined.
